(** * Learning-Reinforcement-Learning: the agent layers of [LRL]

    A shallow embedding of the three behaviour layers of the package
    ([LRL/replayBuffer.py], [LRL/targetDQN.py], [LRL/A2C.py]) and the
    properties of their bookkeeping: the circular replay memory, the
    target-network cadence, the rollout cycle of A2C, its return recursion
    and its loss.

    Conventions.
    - A Python object is a record of its attributes; a method is a function
      from the object to [Py.result] of the updated object, [Py.Raise]
      standing for a raised exception.
    - A layer is a class built over a parent class.  The attributes that the
      parent owns form the field [base] of the layer's record and the
      parent's method is a parameter [parent_see] acting on them.
    - Python integers are [Z]; a tensor of shape (T, N, 1) is a list of T
      rows of N scalars; the scalars and the tensor operations are an
      interface ([A2C.TensorOps]), so that nothing depends on how the
      numbers are represented.
    - Where a property counts the calls of a method, the record carries a
      ghost counter that the method increments ([unfreeze_calls],
      [update_calls]). *)

From Stdlib Require Import ZArith Lia QArith Qcanon.
From Stdlib Require Floats.
From stdpp Require Import base numbers list gmap strings.

Local Open Scope Z_scope.

(** ** The fragment of Python the layers rely on *)

Module Py.

Inductive exn : Type :=
| IndexError
| ValueError
| ZeroDivisionError
| RuntimeError.

Inductive result (A : Type) : Type :=
| Ok (a : A)
| Raise (e : exn).

Arguments Ok {A} a.
Arguments Raise {A} e.

#[export] Instance result_ret : MRet result := fun A a => Ok a.

#[export] Instance result_bind : MBind result := fun A B f m =>
  match m with
  | Ok a => f a
  | Raise e => Raise e
  end.

(** [a % b] on integers: the sign follows the divisor, division by zero
    raises. *)
Definition mod_ (a b : Z) : result Z :=
  if decide (b = 0) then Raise ZeroDivisionError else Ok (a `mod` b).

(** Resolution of a subscript against a sequence of length [n]: negative
    subscripts count from the end, anything else out of range raises. *)
Definition index (n : nat) (i : Z) : result nat :=
  if decide (0 ≤ i < Z.of_nat n) then Ok (Z.to_nat i)
  else if decide (- Z.of_nat n ≤ i < 0) then Ok (Z.to_nat (Z.of_nat n + i))
  else Raise IndexError.

(** [l[i]] *)
Definition getitem {A} (l : list A) (i : Z) : result A :=
  k ← index (length l) i;
  match l !! k with
  | Some x => Ok x
  | None => Raise IndexError
  end.

(** [l[i] = x] *)
Definition setitem {A} (l : list A) (i : Z) (x : A) : result (list A) :=
  k ← index (length l) i;
  Ok (<[k := x]> l).

(** [l[:-1]] *)
Definition drop_last {A} (l : list A) : list A :=
  take (length l - 1)%nat l.

(** [reversed(range(n))] *)
Definition reversed_range (n : nat) : list Z :=
  rev (Z.of_nat <$> seq 0 n).

(** [for x in xs: body(x)] over a state that a raised exception abandons. *)
Fixpoint for_each {A St} (body : A → St → result St) (xs : list A) (st : St)
  : result St :=
  match xs with
  | [] => Ok st
  | x :: xs' => st' ← body x st; for_each body xs' st'
  end.

(** [random.sample(population, k)].  The generator's draw is the argument
    [choice], the positions it selected; [selection] is what the standard
    library guarantees of a draw (k positions, all different, all inside
    the population). *)
Definition selection (n : nat) (k : Z) (choice : list nat) : Prop :=
  Z.of_nat (length choice) = k ∧ NoDup choice ∧ Forall (λ i, (i < n)%nat) choice.

Definition random_sample {A} (population : list A) (k : Z) (choice : list nat)
  : result (list A) :=
  if decide (0 ≤ k ≤ Z.of_nat (length population))
  then Ok (omap (λ i, population !! i) choice)
  else Raise ValueError.

End Py.

Import Py.

(** ** Files, as [save] and [load] use them

    A directory is a finite map from file names to files, a file the
    sequence of the objects dumped into it.  Opening for writing starts an
    empty file, closing puts it under its name; opening a missing file for
    reading raises, and so does loading from a file that is exhausted.
    [Unexpected] stands for an object of a kind that the attribute it is
    assigned to cannot hold in the model; [Raised] for the exceptions of the
    methods of the layers. *)

Module Files.

Inductive exn : Type :=
| FileNotFoundError
| EOFError
| Unexpected
| Raised (e : Py.exn).

Inductive outcome (A : Type) : Type :=
| Done (a : A)
| Failed (e : exn).

Arguments Done {A} a.
Arguments Failed {A} e.

#[global] Instance outcome_ret : MRet outcome := fun A a => Done a.

#[global] Instance outcome_bind : MBind outcome := fun A B f m =>
  match m with
  | Done a => f a
  | Failed e => Failed e
  end.

Section files.
Context {Obj : Type}.

(** [open(name, 'rb')] *)
Definition open_rb (name : string) (dir : gmap string (list Obj))
  : outcome (list Obj) :=
  match dir !! name with
  | Some f => Done f
  | None => Failed FileNotFoundError
  end.

(** [open(name, 'wb')] *)
Definition open_wb (name : string) (dir : gmap string (list Obj))
  : list Obj := [].

(** [f.close()] of a file opened for writing under [name] *)
Definition close_wb (name : string) (f : list Obj)
    (dir : gmap string (list Obj)) : gmap string (list Obj) :=
  <[name := f]> dir.

(** [pickle.dump(o, f)] *)
Definition dump (o : Obj) (f : list Obj) : list Obj := f ++ [o].

(** [pickle.load(f)]: the next object and the rest of the file *)
Definition load (f : list Obj) : outcome (Obj * list Obj) :=
  match f with
  | [] => Failed EOFError
  | o :: f' => Done (o, f')
  end.

End files.

End Files.

(** What the environment driver hands to [see] at one step. *)
Record step_data (Obs Act Rew Dn : Type) : Type := StepData {
  sd_state : Obs;
  sd_action : Act;
  sd_reward : Rew;
  sd_next_state : Obs;
  sd_done : Dn
}.

Arguments StepData {Obs Act Rew Dn}.
Arguments sd_state {Obs Act Rew Dn}.
Arguments sd_action {Obs Act Rew Dn}.
Arguments sd_reward {Obs Act Rew Dn}.
Arguments sd_next_state {Obs Act Rew Dn}.
Arguments sd_done {Obs Act Rew Dn}.

(** ** The cooperative override protocol

    A layer's [see] receives the parent's [see] and the object.  The two
    orders in which an override can combine its own work with the call of
    the parent's method: *)

Module Chain.

Section protocol.
Context {Arg Self Base : Type}.
Context (lift : (Base → Base) → Self → Self).



End protocol.

(** The same two orders when the parent's method is what Python makes of
    it: a method of the same object, which is handed the whole object (the
    attributes of the layer included) and may raise.  [own] is the layer's
    own work. *)
Section methods.
Context {Arg Self : Type}.




End methods.

End Chain.

(** ** [LRL/replayBuffer.py] *)

Module ReplayBuffer.

Section layer.
Context {Obs Act Rew Dn Died Base : Type}.

(** [np.expand_dims(x, 0)]: an array with one more leading axis, of
    extent 1. *)
Definition expand_dims0 (x : Obs) : list Obs := [x].

(** The tuple stored for one transition. *)
Definition entry : Type := (list Obs * Act * Rew * list Obs * Dn)%type.

Definition entry_state (e : entry) : list Obs := e.1.1.1.1.
Definition entry_action (e : entry) : Act := e.1.1.1.2.
Definition entry_reward (e : entry) : Rew := e.1.1.2.
Definition entry_next_state (e : entry) : list Obs := e.1.2.
Definition entry_done (e : entry) : Dn := e.2.

Record agent : Type := Agent {
  replay_buffer_capacity : Z;
  replay_buffer_nsteps : Z;
  buffer : list entry;
  pos : Z;
  base : Base
}.

(** [__init__]: the parent's constructor has produced [b]. *)
Definition init (replay_buffer_capacity : Z) (b : Base) : agent :=
  {| replay_buffer_capacity := replay_buffer_capacity;
     replay_buffer_nsteps := 1;
     buffer := [];
     pos := 0;
     base := b |}.

(** [__len__] *)
Definition len (self : agent) : Z := Z.of_nat (length (buffer self)).

Definition memorize (state : Obs) (action : Act) (reward : Rew)
    (next_state : Obs) (done : Dn) (died : Died) (self : agent)
  : result agent :=
  let state := expand_dims0 state in
  let next_state := expand_dims0 next_state in
  buffer' ←
    (if decide (len self < replay_buffer_capacity self)
     then Ok (buffer self ++ [(state, action, reward, next_state, done)])
     else setitem (buffer self) (pos self)
            (state, action, reward, next_state, done));
  pos' ← mod_ (pos self + 1) (replay_buffer_capacity self);
  Ok {| replay_buffer_capacity := replay_buffer_capacity self;
        replay_buffer_nsteps := replay_buffer_nsteps self;
        buffer := buffer';
        pos := pos';
        base := base self |}.

Definition with_base (f : Base → Base) (self : agent) : agent :=
  {| replay_buffer_capacity := replay_buffer_capacity self;
     replay_buffer_nsteps := replay_buffer_nsteps self;
     buffer := buffer self;
     pos := pos self;
     base := f (base self) |}.

Definition see
    (parent_see : Obs → Act → Rew → Obs → Dn → Died → Base → Base)
    (state : Obs) (action : Act) (reward : Rew)
    (next_state : Obs) (done : Dn) (died : Died) (self : agent)
  : result agent :=
  self ← memorize state action reward next_state done died self;
  Ok (with_base (parent_see state action reward next_state done died) self).

(** [see] on what the driver hands over at one step. *)
Definition see_at
    (parent_see : step_data Obs Act Rew Dn * Died → Base → Base)
    (x : step_data Obs Act Rew Dn * Died) (self : agent) : result agent :=
  see (λ s a r s' d died, parent_see (StepData s a r s' d, died))
    (sd_state x.1) (sd_action x.1) (sd_reward x.1) (sd_next_state x.1)
    (sd_done x.1) x.2 self.




(** The batch returned by [sample]: states, actions, rewards, next states,
    dones, weights. *)
Definition batch : Type :=
  (list Obs * list Act * list Rew * list Obs * list Dn * list Q)%type.

(** [a, b, c, d, e = zip( *rows )]: five tuples out of the rows; no row,
    nothing to unpack. *)
Definition unzip5 (rows : list entry)
  : result (list (list Obs) * list Act * list Rew * list (list Obs) * list Dn) :=
  match rows with
  | [] => Raise ValueError
  | _ :: _ =>
      Ok (entry_state <$> rows, entry_action <$> rows, entry_reward <$> rows,
          entry_next_state <$> rows, entry_done <$> rows)
  end.

(** [np.ones((n))] *)
Definition np_ones (n : Z) : list Q := replicate (Z.to_nat n) 1%Q.

Definition sample (batch_size : Z) (choice : list nat) (self : agent)
  : result (batch * agent) :=
  rows ← random_sample (buffer self) batch_size choice;
  '(state, action, reward, next_state, done) ← unzip5 rows;
  Ok ((concat state, action, reward, concat next_state, done,
       np_ones batch_size), self).

Definition update_priorities (batch_priorities : list Q) (self : agent)
  : result agent := Ok self.

(** A run of the driver's calls to [memorize]. *)
Definition memorize_all (xs : list (step_data Obs Act Rew Dn * Died))
  : agent → result agent :=
  for_each (λ x, memorize (sd_state x.1) (sd_action x.1) (sd_reward x.1)
                   (sd_next_state x.1) (sd_done x.1) x.2) xs.

(** What [memorize] stores for a step. *)
Definition stored (x : step_data Obs Act Rew Dn * Died) : entry :=
  ([sd_state x.1], sd_action x.1, sd_reward x.1, [sd_next_state x.1],
   sd_done x.1).

(** The buffer read in circular order, starting from the slot at [pos]. *)
Definition from_pos (self : agent) : list entry :=
  drop (Z.to_nat (pos self)) (buffer self) ++
  take (Z.to_nat (pos self)) (buffer self).

(** The memory after the transitions [hist], for a capacity [cap]: it holds
    the last [cap] of them, oldest first from the slot at [pos]. *)
Definition holds_recent (cap : Z) (hist : list (step_data Obs Act Rew Dn * Died))
    (self : agent) : Prop :=
  replay_buffer_capacity self = cap ∧
  len self = Z.of_nat (length hist) `min` cap ∧
  pos self = Z.of_nat (length hist) `mod` cap ∧
  from_pos self = stored <$> drop (length hist - Z.to_nat cap)%nat hist.

(** The shape of what [memorize] stores: one leading row per array. *)
Definition single_row (e : entry) : Prop :=
  length (entry_state e) = 1%nat ∧ length (entry_next_state e) = 1%nat.

(** What is left of the memory in the outcome of a call: the buffer and the
    cursor. *)
Definition contents (r : result agent) : result (list entry * Z) :=
  self ← r; Ok (buffer self, pos self).

End layer.

Arguments agent : clear implicits.
Arguments entry : clear implicits.
Arguments batch : clear implicits.

(** *** Persistence of the memory *)

Section persistence.
Context {Obs Act Rew Dn Base Extra : Type}.

(** The objects found in the files of a checkpoint: a buffer, an integer,
    or anything that the other layers dump ([Extra]). *)
Inductive pickled : Type :=
| PBuffer (l : list (entry Obs Act Rew Dn))
| PInt (n : Z)
| POther (x : Extra).

Definition read_memory (mem_f : list pickled)
    (self : agent Obs Act Rew Dn Base)
  : Files.outcome (agent Obs Act Rew Dn Base * list pickled) :=
  '(o, mem_f) ← Files.load mem_f;
  buffer ← match o with
           | PBuffer l => Files.Done l
           | _ => Files.Failed Files.Unexpected
           end;
  '(o, mem_f) ← Files.load mem_f;
  pos ← match o with
        | PInt n => Files.Done n
        | _ => Files.Failed Files.Unexpected
        end;
  Files.Done ({| replay_buffer_capacity := replay_buffer_capacity self;
                 replay_buffer_nsteps := replay_buffer_nsteps self;
                 buffer := buffer;
                 pos := pos;
                 base := base self |}, mem_f).

Definition write_memory (mem_f : list pickled)
    (self : agent Obs Act Rew Dn Base) : list pickled :=
  let mem_f := Files.dump (PBuffer (buffer self)) mem_f in
  Files.dump (PInt (pos self)) mem_f.

Definition save
    (parent_save : string → Base → gmap string (list pickled) →
                   Files.outcome (gmap string (list pickled)))
    (name : string) (save_replay_memory : bool)
    (self : agent Obs Act Rew Dn Base) (dir : gmap string (list pickled))
  : Files.outcome (gmap string (list pickled)) :=
  dir ← parent_save name (base self) dir;
  if save_replay_memory then
    let mem_f := Files.open_wb (name +:+ "-memory") dir in
    let mem_f := write_memory mem_f self in
    Files.Done (Files.close_wb (name +:+ "-memory") mem_f dir)
  else Files.Done dir.

Definition load
    (parent_load : string → Base → gmap string (list pickled) →
                   Files.outcome Base)
    (name : string) (load_replay_memory : bool)
    (self : agent Obs Act Rew Dn Base) (dir : gmap string (list pickled))
  : Files.outcome (agent Obs Act Rew Dn Base) :=
  b ← parent_load name (base self) dir;
  let self := with_base (λ _, b) self in
  if load_replay_memory then
    mem_f ← Files.open_rb (name +:+ "-memory") dir;
    '(self, mem_f) ← read_memory mem_f self;
    Files.Done self
  else Files.Done self.

End persistence.

Arguments pickled : clear implicits.

End ReplayBuffer.

(** ** [LRL/targetDQN.py] *)

Module TargetDQN.

Section layer.
Context {Obs Act Rew Dn Params Rest : Type}.

(** Modelled from the spec: the attributes of the parent class (the base
    [Agent] and the Q-learning layer, which are not among the sources) that
    the layer reads: [frames_done], [env.num_envs], [config.target_update]
    and the state dictionary of [q_net]. *)
Record parent : Type := Parent {
  frames_done : Z;
  num_envs : Z;
  target_update : Z;
  q_net : Params;
  rest : Rest
}.

(** [unfreeze_calls] is a ghost attribute: the number of calls of
    [unfreeze] so far. *)
Record agent : Type := Agent {
  base : parent;
  target_net : Params;
  unfreeze_calls : nat
}.

Definition with_base (f : parent → parent) (self : agent) : agent :=
  {| base := f (base self);
     target_net := target_net self;
     unfreeze_calls := unfreeze_calls self |}.

(** copy policy net weights to target net *)
Definition unfreeze (self : agent) : agent :=
  {| base := base self;
     target_net := q_net (base self);
     unfreeze_calls := S (unfreeze_calls self) |}.

(** [__init__]: [b] is what the parent's constructor built, [fresh_net] the
    parameters of the newly built target network, [configured] the value of
    the key [target_update] of the configuration, if it has one. *)
Definition init (fresh_net : Params) (configured : option Z) (b : parent)
  : agent :=
  let self :=
    unfreeze {| base := b; target_net := fresh_net; unfreeze_calls := 0 |} in
  with_base (λ b, {| frames_done := frames_done b;
                     num_envs := num_envs b;
                     target_update := default 100 configured;
                     q_net := q_net b;
                     rest := rest b |}) self.

Definition see
    (parent_see : Obs → Act → Rew → Obs → Dn → parent → parent)
    (state : Obs) (action : Act) (reward : Rew) (next_state : Obs) (done : Dn)
    (self : agent) : result agent :=
  let self := with_base (parent_see state action reward next_state done) self in
  m ← mod_ (frames_done (base self)) (target_update (base self));
  if decide (m < num_envs (base self)) then Ok (unfreeze self) else Ok self.

(** [see] on what the driver hands over at one step. *)
Definition see_at
    (parent_see : step_data Obs Act Rew Dn → parent → parent)
    (x : step_data Obs Act Rew Dn) (self : agent) : result agent :=
  see (λ s a r s' d, parent_see (StepData s a r s' d))
    (sd_state x) (sd_action x) (sd_reward x) (sd_next_state x) (sd_done x)
    self.

(** [load]: the parent restores the online network, the target follows. *)
Definition load (parent_load : parent → parent) (self : agent) : agent :=
  unfreeze (with_base parent_load self).

(** A run of the driver's calls to [see]. *)
Definition see_all
    (parent_see : Obs → Act → Rew → Obs → Dn → parent → parent)
    (xs : list (step_data Obs Act Rew Dn)) : agent → result agent :=
  for_each (λ x, see parent_see (sd_state x) (sd_action x) (sd_reward x)
                   (sd_next_state x) (sd_done x)) xs.

(** Modelled from the spec: the contract of the base [Agent], whose
    [frames_done] "advances by [num_envs] per step"; the configuration is
    immutable.  The online network is the parent's to train. *)
Definition counts_frames
    (parent_see : Obs → Act → Rew → Obs → Dn → parent → parent) : Prop :=
  ∀ s a r s' d b,
    frames_done (parent_see s a r s' d b) = frames_done b + num_envs b ∧
    num_envs (parent_see s a r s' d b) = num_envs b ∧
    target_update (parent_see s a r s' d b) = target_update b.

(** The multiples of [target_update] in the frames counted from [f] (not
    included) to [f'] (included). *)
Definition boundaries (target_update f f' : Z) : Z :=
  f' `div` target_update - f `div` target_update.

End layer.

Arguments parent : clear implicits.
Arguments agent : clear implicits.

(** *** The bootstrap estimates *)

(** Modelled from the spec: the Q-network head ([QnetworkHead], not among
    the sources) as the layer uses it, a forward pass and the extraction of
    the values from its output, both with the parameters of the network. *)
Class QHead (Params Batch Out Values : Type) : Type := {
  q_forward : Params → Batch → Out;
  q_value : Params → Out → Values
}.

Section estimates.
Context {Params Rest Batch Out Values : Type}.
Context `{!QHead Params Batch Out Values}.

Definition estimate_next_state (next_state_b : Batch)
    (self : agent Params Rest) : Values :=
  q_value (target_net self) (q_forward (target_net self) next_state_b).

(** What the online network would estimate. *)
Definition online_estimate (next_state_b : Batch)
    (self : agent Params Rest) : Values :=
  q_value (q_net (base self)) (q_forward (q_net (base self)) next_state_b).

End estimates.

End TargetDQN.

(** ** [LRL/A2C.py] *)

Module A2C.

(** The scalars of a tensor and the operations of the tensor library that
    [A2C] uses on them.  [square] is [x.pow(2)], [mean] the mean of all the
    entries of a tensor, [detach] the same number cut off from the
    differentiation graph. *)
Class TensorOps (S : Type) : Type := {
  zero : S;
  one : S;
  add : S → S → S;
  sub : S → S → S;
  mul : S → S → S;
  neg : S → S;
  square : S → S;
  mean : list S → S;
  detach : S → S
}.

(** Modelled from the spec: the network head collaborator
    ([ActorCriticHead], not among the sources) and its optimizer, as the
    layer uses them.  [forward] is the call of the policy on a batch of
    observations, giving the action distribution and the value estimates;
    [optimize] stands for [zero_grad], [backward], the optional clipping at
    [grad_norm_max] and the optimizer's [step]. *)
Class Network (S Obs Act Policy Dist : Type) : Type := {
  train : Policy → Policy;
  forward : Policy → list Obs → Dist * list S;
  log_prob : Dist → list Act → list S;
  entropy : Dist → list S;
  magnitude : Policy → S;
  optimize : option S → Policy → S → Policy
}.

Section layer.
Context {S Obs Act Policy Dist Rest : Type}.
Context `{!TensorOps S, !Network S Obs Act Policy Dist}.

(** Modelled from the spec: the attributes of the base [Agent] (not among
    the sources) that the layer uses.  [logger] is a mapping from channel
    names to sequences; the layer appends to channels that it never
    creates, so a channel comes into being at its first use. *)
Record parent : Type := Parent {
  frames_done : Z;
  num_envs : Z;
  logger : gmap string (list S);
  rest : Rest
}.

(** What [__init__] reads from the configuration; [noisy_linear] is whether
    the configured [linear_layer] is [NoisyLinear]. *)
Record hyper : Type := Hyper {
  gamma : S;
  critic_loss_weight : S;
  entropy_loss_weight : S;
  rollout : Z;
  grad_norm_max : option S;
  magnitude_logging_fraction : Z;
  noisy_linear : bool
}.

(** [update_calls] is a ghost attribute: the number of calls of [update] so
    far. *)
Record agent : Type := Agent {
  base : parent;
  config : hyper;
  policy : Policy;
  observations : list (list Obs);
  rewards : list (list S);
  actions : list (list Act);
  dones : list (list S);
  returns : list (list S);
  step : Z;
  update_calls : nat
}.

Definition with_base (f : parent → parent) (self : agent) : agent :=
  {| base := f (base self); config := config self; policy := policy self;
     observations := observations self; rewards := rewards self;
     actions := actions self; dones := dones self; returns := returns self;
     step := step self; update_calls := update_calls self |}.

Definition with_returns (returns : list (list S)) (self : agent) : agent :=
  {| base := base self; config := config self; policy := policy self;
     observations := observations self; rewards := rewards self;
     actions := actions self; dones := dones self; returns := returns;
     step := step self; update_calls := update_calls self |}.

(** [__init__].  [b] is what the parent's constructor built, [cfg] what the
    configuration gives, [net] the network of [init_network]; [blank] and
    [no_action] are the zero observation and the zero action.  The tensors
    are allocated with the sizes of the source and zeroed; a negative size
    is refused by the tensor library.  The labels of the logger and the
    optimizer's own state are not part of the model. *)
Definition init (b : parent) (cfg : hyper) (net : Policy) (blank : Obs)
    (no_action : Act) : result agent :=
  if decide (0 ≤ rollout cfg ∧ 0 ≤ num_envs b) then
    let slots := Z.to_nat (rollout cfg + 1) in
    let envs := Z.to_nat (num_envs b) in
    Ok {| base := b; config := cfg; policy := net;
          observations := replicate slots (replicate envs blank);
          rewards := replicate (Z.to_nat (rollout cfg)) (replicate envs zero);
          actions := replicate slots (replicate envs no_action);
          dones := replicate slots (replicate envs zero);
          returns := replicate slots (replicate envs zero);
          step := 0;
          update_calls := 0 |}
  else Raise RuntimeError.

(** [self.logger[channel].append(x)] *)
Definition log (channel : string) (x : S) (b : parent) : parent :=
  {| frames_done := frames_done b;
     num_envs := num_envs b;
     logger := <[channel := logger b !!! channel ++ [x]]> (logger b);
     rest := rest b |}.

(** [done.astype(np.float32)] *)
Definition as_float (done : bool) : S := if done then one else zero.

(** The right-hand side of the assignment in [compute_returns], on the rows
    of one time slot:
    [returns[step + 1] * gamma * (1 - dones[step + 1]) + rewards[step]]. *)
Definition discounted (gamma : S) (next_return done reward : list S)
  : list S :=
  zip_with add
    (zip_with mul ((λ x, mul x gamma) <$> next_return) (sub one <$> done))
    reward.

Definition compute_returns (values : list (list S)) (self : agent)
  : result agent :=
  last ← getitem values (-1);
  returns ← setitem (returns self) (-1) last;
  returns ←
    for_each (λ step returns,
        next_return ← getitem returns (step + 1);
        done ← getitem (dones self) (step + 1);
        reward ← getitem (rewards self) step;
        setitem returns step
          (discounted (gamma (config self)) next_return done reward))
      (reversed_range (length (rewards self))) returns;
  Ok (with_returns returns self).

(** [t.size()] of a tensor of shape (T, N, 1): T and N.  A tensor without
    rows has lost its N. *)
Definition size {A} (t : list (list A)) : nat * nat :=
  (length t, default 0%nat (length <$> head t)).

(** [flat.view(rows, cols, 1)] *)
Definition view {A} (rows cols : nat) (flat : list A)
  : result (list (list A)) :=
  if decide (length flat = (rows * cols)%nat)
  then Ok (reshape (replicate rows cols) flat)
  else Raise RuntimeError.

(** An operation applied to every entry of a tensor, and to the entries of
    two tensors of one shape. *)
Definition pointwise {A B} (f : A → B) (t : list (list A)) : list (list B) :=
  (λ row : list A, f <$> row) <$> t.

Definition pointwise2 {A B C} (f : A → B → C) (t : list (list A))
    (u : list (list B)) : list (list C) :=
  zip_with (zip_with f) t u.

(** The local variables of [update] when it reaches the optimizer. *)
Record losses : Type := Losses {
  actor_loss : S;
  critic_loss : S;
  dist_entropy : S;
  loss : S
}.

(** [update] down to the assignment of [loss]: the object (with its returns
    refreshed and its policy in training mode) and the losses. *)
Definition update_losses (self : agent) : result (agent * losses) :=
  let policy := train (policy self) in
  let num_steps := (size (rewards self)).1 in
  let num_processes := (size (rewards self)).2 in
  let out := forward policy (concat (observations self)) in
  let dist := out.1 in
  let values := out.2 in
  let action_log_probs := log_prob dist (concat (actions self)) in
  let dist_entropy := mean (drop_last (entropy dist)) in
  values ← view (num_steps + 1) num_processes values;
  action_log_probs ← view (num_steps + 1) num_processes action_log_probs;
  let action_log_probs := drop_last action_log_probs in
  self ← compute_returns values self;
  let advantages :=
    pointwise2 sub
      (pointwise detach (drop_last (returns self))) (drop_last values) in
  let critic_loss := mean (concat (pointwise square advantages)) in
  let actor_loss :=
    neg (mean (concat (pointwise2 mul
                         (pointwise detach advantages) action_log_probs))) in
  let loss :=
    sub (add actor_loss (mul (critic_loss_weight (config self)) critic_loss))
        (mul (entropy_loss_weight (config self)) dist_entropy) in
  Ok ({| base := base self; config := config self; policy := policy;
         observations := observations self; rewards := rewards self;
         actions := actions self; dones := dones self;
         returns := returns self; step := step self;
         update_calls := update_calls self |},
      {| actor_loss := actor_loss; critic_loss := critic_loss;
         dist_entropy := dist_entropy; loss := loss |}).

(** One step of optimization based on rollout memory *)
Definition update (self : agent) : result agent :=
  '(self, l) ← update_losses self;
  let policy := optimize (grad_norm_max (config self)) (policy self) (loss l) in
  let base :=
    log "entropy_loss" (dist_entropy l)
      (log "critic_loss" (critic_loss l)
         (log "actor_loss" (actor_loss l) (base self))) in
  Ok {| base := base; config := config self; policy := policy;
        observations := observations self; rewards := rewards self;
        actions := actions self; dones := dones self;
        returns := returns self; step := step self;
        update_calls := Datatypes.S (update_calls self) |}.

Definition see
    (parent_see : list Obs → list Act → list S → list Obs → list bool →
                  parent → parent)
    (state : list Obs) (action : list Act) (reward : list S)
    (next_state : list Obs) (done : list bool) (self : agent)
  : result agent :=
  let self := with_base (parent_see state action reward next_state done) self in
  observations ← setitem (observations self) (step self) state;
  observations ← setitem observations (step self + 1) next_state;
  actions ← setitem (actions self) (step self) action;
  rewards ← setitem (rewards self) (step self) reward;
  dones ← setitem (dones self) (step self + 1) (as_float <$> done);
  step ← mod_ (step self + 1) (rollout (config self));
  let self :=
    {| base := base self; config := config self; policy := policy self;
       observations := observations; rewards := rewards; actions := actions;
       dones := dones; returns := returns self; step := step;
       update_calls := update_calls self |} in
  self ← (if decide (step = 0) then update self else Ok self);
  m ← mod_ (frames_done (base self))
           (magnitude_logging_fraction (config self));
  if bool_decide (m < num_envs (base self)) && noisy_linear (config self)
  then Ok (with_base (log "magnitude" (magnitude (policy self))) self)
  else Ok self.

(** A run of the driver's calls to [see]. *)
Definition see_all
    (parent_see : list Obs → list Act → list S → list Obs → list bool →
                  parent → parent)
    (xs : list (step_data (list Obs) (list Act) (list S) (list bool)))
  : agent → result agent :=
  for_each (λ x, see parent_see (sd_state x) (sd_action x) (sd_reward x)
                   (sd_next_state x) (sd_done x)) xs.

(** The entry of a tensor at time slot [i] for the environment [e]. *)
Definition entry_at {A} (t : list (list A)) (i e : nat) : option A :=
  t !! i ≫= λ row, row !! e.

(** A tensor of shape (T, N, 1). *)
Definition shaped {A} (T N : nat) (t : list (list A)) : Prop :=
  length t = T ∧ Forall (λ row, length row = N) t.

(** [follows self rets t]: slot [t] of [rets] is the discounted slot
    [t + 1] plus the rewards of slot [t]. *)
Definition follows (self : agent) (rets : list (list S)) (t : nat) : Prop :=
  ∃ next_return done reward,
    rets !! Datatypes.S t = Some next_return ∧
    dones self !! Datatypes.S t = Some done ∧
    rewards self !! t = Some reward ∧
    rets !! t = Some (discounted (gamma (config self)) next_return done reward).



(** [see] on what the driver hands over at one step. *)
Definition see_at
    (parent_see : step_data (list Obs) (list Act) (list S) (list bool) →
                  parent → parent)
    (x : step_data (list Obs) (list Act) (list S) (list bool))
    (self : agent) : result agent :=
  see (λ s a r s' d, parent_see (StepData s a r s' d))
    (sd_state x) (sd_action x) (sd_reward x) (sd_next_state x) (sd_done x)
    self.

(** The rollout memory as [__init__] shapes it for [N] environments:
    [rollout + 1] time slots of observations, actions, dones and returns,
    [rollout] of rewards. *)
Definition well_shaped (N : nat) (self : agent) : Prop :=
  let T := Z.to_nat (rollout (config self)) in
  shaped (Datatypes.S T) N (observations self) ∧
  shaped T N (rewards self) ∧
  shaped (Datatypes.S T) N (actions self) ∧
  length (dones self) = Datatypes.S T ∧
  length (returns self) = Datatypes.S T.


(** Modelled from the spec: the network head gives one value, and the
    distribution one log-probability, per sample of the batch. *)
Definition one_output_per_sample : Prop :=
  (∀ (p : Policy) (obs : list Obs), length (forward p obs).2 = length obs) ∧
  (∀ (d : Dist) (acts : list Act), length (log_prob d acts) = length acts).

(** The value estimates and the log-probabilities of the stored
    observations and actions, viewed by time slot as [update] does, for [N]
    environments. *)
Definition viewed_values (self : agent) (N : nat) : list (list S) :=
  reshape (replicate (length (rewards self) + 1) N)
    (forward (train (policy self)) (concat (observations self))).2.

Definition viewed_log_probs (self : agent) (N : nat) : list (list S) :=
  reshape (replicate (length (rewards self) + 1) N)
    (log_prob (forward (train (policy self)) (concat (observations self))).1
       (concat (actions self))).

(** The entropies of the samples, in the order of the batch. *)
Definition sample_entropies (self : agent) : list S :=
  entropy (forward (train (policy self)) (concat (observations self))).1.

(** The three channels of the logger that [update] feeds. *)
Definition loss_channels : list string :=
  ["actor_loss"; "critic_loss"; "entropy_loss"].


(** The losses in the words of the specification, on the returns and the
    value estimates and log-probabilities of all [R + 1] time slots:
    [critic_loss = mean((returns.detach() - values)^2)],
    [actor_loss = -mean((returns.detach() - values).detach() * log_prob)],
    both over the first [R] time slots, and
    [total_loss = actor_loss + critic_loss_weight * critic_loss
                  - entropy_loss_weight * entropy]. *)
Definition spec_advantage (R : nat) (returns values : list (list S))
  : list (list S) :=
  pointwise2 (λ ret v, sub (detach ret) v) (take R returns) (take R values).

Definition spec_critic_loss (R : nat) (returns values : list (list S)) : S :=
  mean (concat (pointwise square (spec_advantage R returns values))).

Definition spec_actor_loss (R : nat) (returns values log_probs : list (list S))
  : S :=
  neg (mean (concat
    (pointwise2 (λ a lp, mul (detach a) lp)
       (spec_advantage R returns values) (take R log_probs)))).

Definition spec_total_loss (critic_loss_weight entropy_loss_weight : S)
    (actor_loss critic_loss entropy : S) : S :=
  sub (add actor_loss (mul critic_loss_weight critic_loss))
      (mul entropy_loss_weight entropy).

(** The entropy term in the words of the specification: the mean of the
    entropies of the samples of the first [R] time slots, [N] to a slot. *)
Definition spec_entropy (R N : nat) (entropies : list S) : S :=
  mean (take (R * N) entropies).

End layer.

Arguments parent : clear implicits.
Arguments agent : clear implicits.
Arguments losses : clear implicits.

End A2C.

(** ** Differentiation, as far as [detach] is concerned

    A scalar of the differentiation graph is a number together with its
    derivative along a direction of the parameters; the operations carry
    the derivative along and [detach] forgets it. *)

Module Autograd.
Import A2C.

Definition tracked_ops {S : Type} `{!TensorOps S} : TensorOps (S * S) :=
  {| zero := (zero, zero);
     one := (one, zero);
     add := λ x y, (add x.1 y.1, add x.2 y.2);
     sub := λ x y, (sub x.1 y.1, sub x.2 y.2);
     mul := λ x y, (mul x.1 y.1, add (mul x.2 y.1) (mul x.1 y.2));
     neg := λ x, (neg x.1, neg x.2);
     square := λ x, (square x.1, add (mul x.2 x.1) (mul x.1 x.2));
     mean := λ l, (mean (fst <$> l), mean (snd <$> l));
     detach := λ x, (x.1, zero) |}.

(** The numbers of a tensor, without their derivatives. *)
Definition numbers {S : Type} (t : list (list (S * S))) : list (list S) :=
  pointwise fst t.

End Autograd.

(** ** Concrete agents, to run the layers on *)

Module Examples.

(** Observations, actions and rewards are integers; the parent only counts
    the calls of its [see]. *)
Definition seen (n : Z) (done : bool) : step_data Z Z Z bool * bool :=
  (StepData n (10 + n) (100 + n) (n + 1) done, done).

Definition three_seen : list (step_data Z Z Z bool * bool) :=
  [seen 1 false; seen 2 false; seen 3 true].

Definition counting_see (_ _ _ _ : Z) (_ _ : bool) (calls : Z) : Z :=
  calls + 1.

(** The memory of capacity 2 after [three_seen]. *)
Definition small_memory : ReplayBuffer.agent Z Z Z bool Z :=
  {| ReplayBuffer.replay_buffer_capacity := 2;
     ReplayBuffer.replay_buffer_nsteps := 1;
     ReplayBuffer.buffer :=
       [([3], 13, 103, [4], true); ([2], 12, 102, [3], false)];
     ReplayBuffer.pos := 1;
     ReplayBuffer.base := 0 |}.

(** A parent of the target-network layer that counts the frames and trains
    its online network (an integer) at every call. *)
Definition training_see (_ _ _ _ : Z) (_ : bool) (b : TargetDQN.parent Z unit)
  : TargetDQN.parent Z unit :=
  {| TargetDQN.frames_done := TargetDQN.frames_done b + TargetDQN.num_envs b;
     TargetDQN.num_envs := TargetDQN.num_envs b;
     TargetDQN.target_update := TargetDQN.target_update b;
     TargetDQN.q_net := TargetDQN.q_net b + 1;
     TargetDQN.rest := TargetDQN.rest b |}.

(** The agent that the constructor builds over [num_envs] environments, for
    the cadence [target_update]. *)
Definition target_agent (num_envs target_update : Z) : TargetDQN.agent Z unit :=
  TargetDQN.init 0 (Some target_update)
    {| TargetDQN.frames_done := 0;
       TargetDQN.num_envs := num_envs;
       TargetDQN.target_update := 100;
       TargetDQN.q_net := 7;
       TargetDQN.rest := () |}.

Definition four_steps : list (step_data Z Z Z bool) :=
  [StepData 1 0 0 2 false; StepData 2 0 0 3 false;
   StepData 3 0 0 4 false; StepData 4 0 1 5 true].

(** Exact arithmetic on the rationals as the scalars of the tensors. *)
Definition exact_ops : A2C.TensorOps Qc :=
  {| A2C.zero := 0%Qc;
     A2C.one := 1%Qc;
     A2C.add := Qcplus;
     A2C.sub := Qcminus;
     A2C.mul := Qcmult;
     A2C.neg := Qcopp;
     A2C.square := λ x, (x * x)%Qc;
     A2C.mean := λ l, (foldr Qcplus 0 l / Q2Qc (inject_Z (Z.of_nat (length l))))%Qc;
     A2C.detach := λ x, x |}.

(** A small network head: its parameter is one weight [w]; the value of an
    observation [o] is [w * o], its entropy [o], the log-probability of an
    action [a] is [-a]; the optimizer moves the weight against the loss. *)
Definition of_Z (n : Z) : Qc := Q2Qc (inject_Z n).

Definition toy_network : A2C.Network Qc Z Z Qc (list Z) :=
  {| A2C.train := λ w, w;
     A2C.forward := λ w obs, (obs, (λ o, w * of_Z o)%Qc <$> obs);
     A2C.log_prob := λ _ acts, (λ a, - of_Z a)%Qc <$> acts;
     A2C.entropy := λ d, of_Z <$> d;
     A2C.magnitude := λ w, w;
     A2C.optimize := λ _ w loss, (w - loss)%Qc |}.

Definition q (n : Z) (d : positive) : Qc := Q2Qc (n # d).

(** The numbers of a tensor, as fractions. *)
Definition fractions (t : list (list Qc)) : list (list Q) :=
  A2C.pointwise this t.

(** An A2C agent over [num_envs] environments with a rollout of [rollout]
    steps, discount 1/2, as the constructor builds it (all tensors zero). *)
Definition a2c_agent (rollout num_envs : nat) (w : Qc)
  : A2C.agent Qc Z Z Qc unit :=
  {| A2C.base := {| A2C.frames_done := 0;
                    A2C.num_envs := Z.of_nat num_envs;
                    A2C.logger := ∅;
                    A2C.rest := () |};
     A2C.config := {| A2C.gamma := q 1 2;
                      A2C.critic_loss_weight := q 1 1;
                      A2C.entropy_loss_weight := q 0 1;
                      A2C.rollout := Z.of_nat rollout;
                      A2C.grad_norm_max := None;
                      A2C.magnitude_logging_fraction := 1000;
                      A2C.noisy_linear := false |};
     A2C.policy := w;
     A2C.observations := replicate (rollout + 1) (replicate num_envs 0);
     A2C.rewards := replicate rollout (replicate num_envs (q 0 1));
     A2C.actions := replicate (rollout + 1) (replicate num_envs 0);
     A2C.dones := replicate (rollout + 1) (replicate num_envs (q 0 1));
     A2C.returns := replicate (rollout + 1) (replicate num_envs (q 0 1));
     A2C.step := 0;
     A2C.update_calls := 0 |}.

(** The rollout of the hand computation: one environment, three steps of
    reward 1, no episode end, [dones] as given. *)
Definition hand_rollout (dones : list (list Qc)) : A2C.agent Qc Z Z Qc unit :=
  let self := a2c_agent 3 1 (q 1 1) in
  {| A2C.base := A2C.base self; A2C.config := A2C.config self;
     A2C.policy := A2C.policy self;
     A2C.observations := A2C.observations self;
     A2C.rewards := [[q 1 1]; [q 1 1]; [q 1 1]];
     A2C.actions := A2C.actions self;
     A2C.dones := dones;
     A2C.returns := A2C.returns self;
     A2C.step := 0;
     A2C.update_calls := 0 |}.

(** Value estimates that end with the bootstrap value [v]. *)
Definition hand_values (v : Qc) : list (list Qc) :=
  [[q 0 1]; [q 0 1]; [q 0 1]; [v]].

Definition no_done : list (list Qc) := [[q 0 1]; [q 0 1]; [q 0 1]; [q 0 1]].

(** The episode ends at the last step. *)
Definition done_at_last : list (list Qc) :=
  [[q 0 1]; [q 0 1]; [q 0 1]; [q 1 1]].

(** The returns that a call leaves, as fractions. *)
Definition returns_left (r : result (A2C.agent Qc Z Z Qc unit))
  : option (list (list Q)) :=
  match r with
  | Ok self => Some (fractions (A2C.returns self))
  | Raise _ => None
  end.



(** An agent over two environments with a rollout of one step, holding the
    observations 1, 2 (first slot) and 3, 4 (bootstrap slot). *)
Definition two_envs : A2C.agent Qc Z Z Qc unit :=
  let self := a2c_agent 1 2 (q 1 1) in
  {| A2C.base := A2C.base self; A2C.config := A2C.config self;
     A2C.policy := A2C.policy self;
     A2C.observations := [[1; 2]; [3; 4]];
     A2C.rewards := A2C.rewards self;
     A2C.actions := A2C.actions self;
     A2C.dones := A2C.dones self;
     A2C.returns := A2C.returns self;
     A2C.step := 0;
     A2C.update_calls := 0 |}.

(** The entropy term that [update] computes, as a fraction. *)
Definition entropy_term
    (r : result (A2C.agent Qc Z Z Qc unit * A2C.losses Qc)) : option Q :=
  match r with
  | Ok (_, l) => Some (this (A2C.dist_entropy l))
  | Raise _ => None
  end.





(** A parent of the replay buffer whose checkpoint is nothing: its [save]
    leaves the directory as it is and its [load] the attributes. *)
Definition no_save (_ : string) (_ : Z)
    (dir : gmap string (list (ReplayBuffer.pickled Z Z Z bool unit)))
  : Files.outcome (gmap string (list (ReplayBuffer.pickled Z Z Z bool unit))) :=
  Files.Done dir.

Definition no_load (_ : string) (b : Z)
    (_ : gmap string (list (ReplayBuffer.pickled Z Z Z bool unit)))
  : Files.outcome Z :=
  Files.Done b.

(** A Q-network head on integers: the parameter scales the batch. *)
Definition scaling_head : TargetDQN.QHead Z Z Z Z :=
  {| TargetDQN.q_forward := λ w x, w * x;
     TargetDQN.q_value := λ _ y, y |}.



(** A network head whose value output has a single entry, whatever the
    batch. *)
Definition pooling_network : A2C.Network Qc Z Z Qc (list Z) :=
  {| A2C.train := λ w, w;
     A2C.forward := λ w obs, (obs, [w]);
     A2C.log_prob := λ _ acts, (λ a, - of_Z a)%Qc <$> acts;
     A2C.entropy := λ d, of_Z <$> d;
     A2C.magnitude := λ w, w;
     A2C.optimize := λ _ w loss, (w - loss)%Qc |}.


(** A float that is neither an infinity nor NaN, and one that is not the
    negative zero. *)
Definition float_finite (y : PrimFloat.float) : Prop :=
  match PrimFloat.classify y with
  | FloatClass.NaN | FloatClass.PInf | FloatClass.NInf => False
  | _ => True
  end.





End Examples.

(** * Properties *)

(** ** Python subscripts and loops *)

Module PyFacts.

Lemma bind_Ok {A B} (a : A) (f : A → result B) : (Ok a ≫= f) = f a.
Proof. reflexivity. Qed.

Lemma bind_Raise {A B} (e : exn) (f : A → result B) :
  (Raise e ≫= f) = Raise e.
Proof. reflexivity. Qed.

Lemma index_inside (n : nat) (i : Z) :
  0 ≤ i < Z.of_nat n → index n i = Ok (Z.to_nat i).
Proof. intros Hi. unfold index. rewrite decide_True; done. Qed.

Lemma index_last (n : nat) :
  (0 < n)%nat → index n (-1) = Ok (n - 1)%nat.
Proof.
  intros Hn. unfold index.
  rewrite decide_False by lia. rewrite decide_True by lia.
  f_equal; lia.
Qed.

Lemma index_outside (n : nat) (i : Z) :
  ¬ (- Z.of_nat n ≤ i < Z.of_nat n) → index n i = Raise IndexError.
Proof.
  intros Hi. unfold index.
  rewrite decide_False by lia. rewrite decide_False by lia. done.
Qed.

Lemma setitem_inside {A} (l : list A) (i : Z) (x : A) :
  0 ≤ i < Z.of_nat (length l) → setitem l i x = Ok (<[Z.to_nat i := x]> l).
Proof. intros Hi. unfold setitem. rewrite index_inside; done. Qed.

Lemma setitem_last {A} (l : list A) (x : A) :
  (0 < length l)%nat → setitem l (-1) x = Ok (<[(length l - 1)%nat := x]> l).
Proof. intros Hl. unfold setitem. rewrite index_last; done. Qed.

Lemma getitem_inside {A} (l : list A) (i : Z) (x : A) :
  0 ≤ i → l !! Z.to_nat i = Some x → getitem l i = Ok x.
Proof.
  intros Hi Hx. unfold getitem.
  rewrite index_inside by (apply lookup_lt_Some in Hx; lia).
  cbn. rewrite Hx. done.
Qed.

Lemma getitem_last {A} (l : list A) (x : A) :
  l !! (length l - 1)%nat = Some x → getitem l (-1) = Ok x.
Proof.
  intros Hx. unfold getitem.
  rewrite index_last by (apply lookup_lt_Some in Hx; lia).
  cbn. rewrite Hx. done.
Qed.

Lemma for_each_app {A St} (body : A → St → result St) (xs ys : list A)
    (st : St) :
  for_each body (xs ++ ys) st = (st' ← for_each body xs st; for_each body ys st').
Proof.
  revert st. induction xs as [|x xs IH]; intros st; cbn; [done|].
  destruct (body x st) as [st'|e]; cbn; [apply IH | done].
Qed.

Lemma drop_last_length {A} (l : list A) :
  length (drop_last l) = (length l - 1)%nat.
Proof. unfold drop_last. rewrite length_take. lia. Qed.

Lemma drop_last_take {A} (l : list A) (n : nat) :
  length l = Datatypes.S n → drop_last l = take n l.
Proof. intros Hl. unfold drop_last. rewrite Hl. f_equal. lia. Qed.

End PyFacts.

(** ** The replay memory *)

Module ReplayBufferFacts.
Import PyFacts ReplayBuffer.

Section facts.
Context {Obs Act Rew Dn Died Base : Type}.

Local Abbreviation agent := (ReplayBuffer.agent Obs Act Rew Dn Base).
Local Abbreviation entry := (ReplayBuffer.entry Obs Act Rew Dn).
Local Abbreviation seen := (step_data Obs Act Rew Dn * Died)%type.

Implicit Types (self : agent) (x : seen) (hist : list seen) (cap : Z).

Lemma holds_recent_init cap (b : Base) :
  0 < cap → holds_recent cap ([] : list seen) (init cap b).
Proof.
  intros Hcap. unfold holds_recent, init, len, from_pos; cbn.
  repeat split; try done. cbn; lia.
Qed.

Lemma from_pos_insert self (e : entry) :
  (Z.to_nat (pos self) < length (buffer self))%nat →
  drop (Datatypes.S (Z.to_nat (pos self)))
       (<[Z.to_nat (pos self) := e]> (buffer self)) ++
  take (Datatypes.S (Z.to_nat (pos self)))
       (<[Z.to_nat (pos self) := e]> (buffer self))
  = drop 1 (from_pos self) ++ [e].
Proof.
  intros Hp. unfold from_pos.
  set (p := Z.to_nat (pos self)) in *. set (buf := buffer self) in *.
  rewrite drop_insert_lt by lia.
  rewrite (take_S_r _ _ e) by (by apply list_lookup_insert_eq).
  rewrite take_insert_ge by lia.
  destruct (lookup_lt_is_Some_2 buf p Hp) as [old Hold].
  rewrite (drop_S buf old p Hold). cbn. rewrite drop_0.
  by rewrite <- app_assoc.
Qed.

Lemma memorize_keeps cap hist self x :
  0 < cap → holds_recent cap hist self →
  ∃ self',
    memorize (sd_state x.1) (sd_action x.1) (sd_reward x.1)
      (sd_next_state x.1) (sd_done x.1) x.2 self = Ok self' ∧
    holds_recent cap (hist ++ [x]) self' ∧
    base self' = base self ∧
    pos self' = (pos self + 1) `mod` cap ∧
    (len self < cap → buffer self' = buffer self ++ [stored x]) ∧
    (¬ len self < cap →
       0 ≤ pos self < len self ∧
       buffer self' = <[Z.to_nat (pos self) := stored x]> (buffer self)).
Proof.
  intros Hcap (Hc & Hlen & Hpos & Hwin).
  unfold memorize. rewrite Hc. fold (stored x).
  assert (Hmod : mod_ (pos self + 1) cap = Ok ((pos self + 1) `mod` cap)).
  { unfold mod_. rewrite decide_False by lia. done. }
  assert (Hnext : Z.of_nat (length (hist ++ [x])) `mod` cap
                  = (pos self + 1) `mod` cap).
  { rewrite length_app, Hpos. cbn [length].
    rewrite Nat2Z.inj_add. rewrite Zplus_mod_idemp_l. done. }
  destruct (decide (len self < cap)) as [Hlt|Hge].
  - (* the memory still grows *)
    cbn. rewrite Hmod. cbn. eexists; split; [reflexivity|].
    assert (Hn : Z.of_nat (length hist) < cap) by lia.
    assert (Hl : length (buffer self) = length hist) by (unfold len in *; lia).
    assert (Hp : pos self = Z.of_nat (length hist))
      by (rewrite Hpos; apply Z.mod_small; lia).
    assert (Hbuf : buffer self = stored <$> hist).
    { assert ((length hist - Z.to_nat cap)%nat = 0%nat) as Hz by lia.
      rewrite Hz, drop_0 in Hwin. rewrite <- Hwin. unfold from_pos.
      rewrite Hp, Nat2Z.id, <- Hl. by rewrite drop_all, take_ge by lia. }
    repeat split; cbn; try done.
    + unfold len; cbn. rewrite !length_app; cbn. unfold len in Hlen. lia.
    + unfold from_pos; cbn.
      assert ((length (hist ++ [x]) - Z.to_nat cap)%nat = 0%nat) as ->
        by (rewrite length_app; cbn; lia).
      rewrite drop_0, fmap_app. cbn. rewrite <- Hbuf.
      destruct (decide (Z.of_nat (length hist) + 1 < cap)) as [Hs|Hs].
      * rewrite Z.mod_small by lia.
        rewrite drop_ge, take_ge by (rewrite length_app; cbn; lia). done.
      * assert (pos self + 1 = cap) as -> by lia.
        rewrite Z_mod_same_full. cbn. by rewrite app_nil_r.
  - (* the memory is full *)
    assert (Hn : cap ≤ Z.of_nat (length hist)) by lia.
    assert (Hl : Z.of_nat (length (buffer self)) = cap) by (unfold len in *; lia).
    assert (Hp : 0 ≤ pos self < cap) by (rewrite Hpos; apply Z.mod_pos_bound; lia).
    rewrite setitem_inside by lia.
    cbn. rewrite Hmod. cbn. eexists; split; [reflexivity|].
    assert (Hpn : (Z.to_nat (pos self) < length (buffer self))%nat) by lia.
    pose proof (from_pos_insert self (stored x) Hpn) as Hins.
    repeat split; cbn; try done; try lia.
    + unfold len; cbn. rewrite length_insert, length_app. cbn. lia.
    + unfold from_pos; cbn.
      assert ((length (hist ++ [x]) - Z.to_nat cap)%nat
              = (length hist - Z.to_nat cap + 1)%nat) as ->
        by (rewrite length_app; cbn; lia).
      rewrite drop_app_le by lia. rewrite fmap_app. cbn [fmap list_fmap].
      rewrite <- drop_drop.
      rewrite fmap_drop, <- Hwin, <- Hins.
      destruct (decide (pos self + 1 < cap)) as [Hs|Hs].
      * rewrite Z.mod_small by lia.
        by replace (Z.to_nat (pos self + 1))
          with (Datatypes.S (Z.to_nat (pos self))) by lia.
      * assert (pos self + 1 = cap) as Heq by lia. rewrite Heq.
        rewrite Z_mod_same_full. cbn [Z.to_nat drop take].
        rewrite (drop_ge _ (Datatypes.S _)), (take_ge _ (Datatypes.S _))
          by (rewrite length_insert; lia).
        by rewrite drop_0, app_nil_r.
Qed.

Lemma memorize_all_holds cap (b : Base) hist :
  0 < cap →
  ∃ self, memorize_all hist (init cap b) = Ok self ∧
          holds_recent cap hist self ∧ base self = b.
Proof.
  intros Hcap. induction hist as [|x hist IH] using rev_ind.
  - exists (init cap b). by split; [|split; [apply holds_recent_init|]].
  - destruct IH as (self & Hrun & Hinv & Hb).
    destruct (memorize_keeps cap hist self x Hcap Hinv)
      as (self' & Hstep & Hinv' & Hb' & _).
    exists self'. unfold memorize_all in *. rewrite for_each_app, Hrun.
    cbn. rewrite Hstep. cbn. split; [done|]. split; [done|congruence].
Qed.

(** C2. On a replay memory of capacity [capacity > 0], [capacity + k]
    memorizations ([k > 0]) from the constructor's state succeed; afterwards
    the length of the buffer is [capacity] and the buffer, read circularly
    from the slot at [pos], is the last [capacity] transitions in the order
    they came.  At every step of the run [memorize] appends while the buffer
    is below capacity, otherwise overwrites the slot at [pos]; it advances
    [pos] to [(pos + 1) mod capacity]; every other entry stays in its
    slot. *)
Theorem memorize_keeps_most_recent (capacity : Z) (k : nat) (b : Base) hist :
  0 < capacity → (0 < k)%nat →
  length hist = (Z.to_nat capacity + k)%nat →
  (∃ self,
     memorize_all hist (init capacity b) = Ok self ∧
     len self = capacity ∧
     from_pos self = stored <$> drop k hist) ∧
  (∀ n x, hist !! n = Some x →
     ∃ before after,
       memorize_all (take n hist) (init capacity b) = Ok before ∧
       memorize (sd_state x.1) (sd_action x.1) (sd_reward x.1)
         (sd_next_state x.1) (sd_done x.1) x.2 before = Ok after ∧
       len before ≤ capacity ∧
       pos after = (pos before + 1) `mod` capacity ∧
       (len before < capacity → buffer after = buffer before ++ [stored x]) ∧
       (len before = capacity →
          0 ≤ pos before < capacity ∧
          buffer after = <[Z.to_nat (pos before) := stored x]> (buffer before)) ∧
       (∀ i e, buffer before !! i = Some e →
               len before < capacity ∨ i ≠ Z.to_nat (pos before) →
               buffer after !! i = Some e)).
Proof.
  intros Hcap Hk Hlen. split.
  - destruct (memorize_all_holds capacity b hist Hcap)
      as (self & Hrun & (_ & Hl & _ & Hwin) & _).
    exists self. split; [done|]. split; [lia|].
    rewrite Hwin. do 2 f_equal. lia.
  - intros n x Hx.
    destruct (memorize_all_holds capacity b (take n hist) Hcap)
      as (before & Hrun & Hinv & _).
    destruct (memorize_keeps capacity (take n hist) before x Hcap Hinv)
      as (after & Hstep & _ & _ & Hpos & Happ & Hset).
    destruct Hinv as (_ & Hl & _).
    exists before, after. split; [done|]. split; [done|].
    split; [lia|]. split; [done|]. split; [done|]. split.
    + intros Hfull. destruct Hset as [Hp Hb]; [lia|]. split; [lia|done].
    + intros i e He Hcase.
      destruct (decide (len before < capacity)) as [Hlt|Hge].
      * rewrite (Happ Hlt). by apply lookup_app_l_Some.
      * destruct Hset as [_ ->]; [done|].
        destruct Hcase as [?|Hne]; [done|].
        by rewrite list_lookup_insert_ne.
Qed.


Lemma memorize_entries
    (state : Obs) (action : Act) (reward : Rew) (next_state : Obs) (done : Dn)
    (died : Died) self self' :
  memorize state action reward next_state done died self = Ok self' →
  ([state], action, reward, [next_state], done) ∈ buffer self' ∧
  (∀ e, e ∈ buffer self' →
        e ∈ buffer self ∨ e = ([state], action, reward, [next_state], done)).
Proof.
  unfold memorize, expand_dims0.
  set (t := ([state], action, reward, [next_state], done)).
  destruct (decide (len self < replay_buffer_capacity self)) as [Hlt|Hge]; cbn.
  - destruct (mod_ _ _) as [p|err]; cbn; [|done].
    intros [= <-]; cbn. split.
    + apply elem_of_app. right. by apply list_elem_of_singleton.
    + intros e [He|He]%elem_of_app; [by left|].
      right. by apply list_elem_of_singleton in He.
  - unfold setitem.
    destruct (index _ _) as [i|err] eqn:Hi; cbn; [|done].
    destruct (mod_ _ _) as [p|err]; cbn; [|done].
    intros [= <-]; cbn.
    assert (Hin : (i < length (buffer self))%nat).
    { revert Hi. unfold index. repeat case_decide; intros [= <-]; lia. }
    split.
    + apply list_elem_of_lookup. exists i. by apply list_lookup_insert_eq.
    + intros e [j Hj]%list_elem_of_lookup.
      destruct (decide (i = j)) as [->|Hne].
      * rewrite list_lookup_insert_eq in Hj by done. right. congruence.
      * rewrite list_lookup_insert_ne in Hj by done.
        left. apply list_elem_of_lookup. by exists j.
Qed.

(** C10. [died] is an argument of [memorize] and [see] and is not stored:
    whatever is passed for it, the outcome of [memorize] is the same and the
    buffer and cursor that [see] leaves are the same; when [memorize]
    returns, the tuple (state with a leading axis, action, reward, next
    state with a leading axis, done) is in the buffer and every other entry
    of the buffer was there before. *)
Theorem died_is_not_stored
    (parent_see : Obs → Act → Rew → Obs → Dn → Died → Base → Base)
    (state : Obs) (action : Act) (reward : Rew) (next_state : Obs) (done : Dn)
    (died died' : Died) self self' :
  memorize state action reward next_state done died self = Ok self' →
  memorize state action reward next_state done died' self = Ok self' ∧
  contents (see parent_see state action reward next_state done died self)
  = Ok (buffer self', pos self') ∧
  contents (see parent_see state action reward next_state done died' self)
  = Ok (buffer self', pos self') ∧
  ([state], action, reward, [next_state], done) ∈ buffer self' ∧
  (∀ e, e ∈ buffer self' →
        e ∈ buffer self ∨ e = ([state], action, reward, [next_state], done)).
Proof.
  intros Hmem. split; [exact Hmem|].
  unfold see, contents.
  change (memorize state action reward next_state done died' self)
    with (memorize state action reward next_state done died self).
  rewrite Hmem. cbn. split; [done|]. split; [done|].
  by eapply memorize_entries.
Qed.

(** The outcome of [memorize] does not depend on [died] at all. *)
Lemma memorize_ignores_died
    (state : Obs) (action : Act) (reward : Rew) (next_state : Obs) (done : Dn)
    (died died' : Died) self :
  memorize state action reward next_state done died self
  = memorize state action reward next_state done died' self.
Proof. reflexivity. Qed.

Lemma memorize_single_row
    (state : Obs) (action : Act) (reward : Rew) (next_state : Obs) (done : Dn)
    (died : Died) self self' :
  memorize state action reward next_state done died self = Ok self' →
  Forall single_row (buffer self) → Forall single_row (buffer self').
Proof.
  intros Hmem Hrows. apply Forall_forall. intros e He.
  destruct (memorize_entries _ _ _ _ _ _ _ _ Hmem) as [_ Hfrom].
  destruct (Hfrom e He) as [Hold| ->].
  - by eapply Forall_forall in Hrows.
  - by split.
Qed.

Lemma random_sample_rows (population : list entry) (choice : list nat) :
  Forall (λ i, (i < length population)%nat) choice →
  ∃ rows,
    omap (λ i, population !! i) choice = rows ∧
    Forall2 (λ i e, population !! i = Some e) choice rows.
Proof.
  induction 1 as [|i choice Hi _ (rows & Hrows & Hall)].
  - exists []. by split; [|constructor].
  - destruct (lookup_lt_is_Some_2 population i Hi) as [e He].
    exists (e :: rows). cbn. rewrite He, Hrows. by split; [|constructor].
Qed.

Lemma concat_single_rows (rows : list entry) (col : entry → list Obs) :
  Forall (λ e, length (col e) = 1%nat) rows →
  length (concat (col <$> rows)) = length rows.
Proof.
  induction 1 as [|e rows He _ IH]; cbn; [done|].
  rewrite length_app, He, IH. done.
Qed.

(** C7.  [sample(batch_size)] raises [ValueError] when [batch_size] is
    negative or exceeds the length of the buffer, and also when it is zero
    (nothing to unpack).  For [1 <= batch_size <= len(buffer)] and a draw of
    [batch_size] different positions of the buffer it returns the columns of
    the entries at these positions, in the order drawn, each of length
    [batch_size], with [batch_size] weights all equal to 1; the object is
    returned as it was. *)
Theorem sample_draws self (batch_size : Z) (choice : list nat) :
  (batch_size < 0 ∨ len self < batch_size →
   sample batch_size choice self = Raise ValueError) ∧
  (batch_size = 0 → choice = [] →
   sample batch_size choice self = Raise ValueError) ∧
  (1 ≤ batch_size ≤ len self →
   selection (length (buffer self)) batch_size choice →
   Forall single_row (buffer self) →
   ∃ rows : list entry,
     Forall2 (λ i e, buffer self !! i = Some e) choice rows ∧
     NoDup choice ∧
     sample batch_size choice self
     = Ok ((concat (entry_state <$> rows), entry_action <$> rows,
            entry_reward <$> rows, concat (entry_next_state <$> rows),
            entry_done <$> rows, replicate (Z.to_nat batch_size) 1%Q),
           self) ∧
     Z.of_nat (length rows) = batch_size ∧
     Z.of_nat (length (concat (entry_state <$> rows))) = batch_size ∧
     Z.of_nat (length (concat (entry_next_state <$> rows))) = batch_size).
Proof.
  unfold sample, random_sample, len. split; [|split].
  - intros Hout. rewrite decide_False by lia. done.
  - intros -> ->. rewrite decide_True by lia. done.
  - intros Hin (Hlen & Hdup & Hpos) Hrows.
    rewrite decide_True by lia. cbn.
    destruct (random_sample_rows (buffer self) choice Hpos)
      as (rows & -> & Hall).
    assert (Hn : length rows = length choice)
      by (symmetry; eapply Forall2_length; eauto).
    assert (Hsingle : Forall single_row rows).
    { apply Forall_forall. intros e [j Hj]%list_elem_of_lookup.
      destruct (Forall2_lookup_r _ _ _ _ _ Hall Hj) as (i & _ & Hi).
      eapply Forall_forall in Hrows; [done|].
      apply list_elem_of_lookup. eauto. }
    exists rows. split; [done|]. split; [done|].
    split.
    { destruct rows as [|e rows]; [cbn in Hn; lia|]. done. }
    split; [lia|].
    rewrite !concat_single_rows; [lia| |].
    + eapply Forall_impl; [exact Hsingle|]. by intros e [].
    + eapply Forall_impl; [exact Hsingle|]. by intros e [].
Qed.

End facts.

(** The claim that [sample] fails only when [batch_size] exceeds the length
    of the buffer does not hold at [batch_size = 0]: on a memory of two
    transitions, with the empty draw, [sample(0)] raises. *)
Lemma sample_nothing_raises :
  sample 0 [] Examples.small_memory = Raise ValueError ∧
  ¬ (len Examples.small_memory < 0) ∧
  selection (length (buffer Examples.small_memory)) 0 [].
Proof.
  split; [reflexivity|]. split; [by cbn|].
  split; [reflexivity|]. split; constructor.
Qed.

Lemma sample_draws_witness :
  1 ≤ 2 ≤ len Examples.small_memory ∧
  ∃ rows : list (ReplayBuffer.entry Z Z Z bool),
    Forall2 (λ i e, buffer Examples.small_memory !! i = Some e) [1; 0]%nat rows ∧
    sample 2 [1; 0]%nat Examples.small_memory
    = Ok ((concat (entry_state <$> rows), entry_action <$> rows,
           entry_reward <$> rows, concat (entry_next_state <$> rows),
           entry_done <$> rows, [1%Q; 1%Q]), Examples.small_memory).
Proof.
  split; [by cbn|].
  destruct (proj2 (proj2 (sample_draws Examples.small_memory 2 [1; 0]%nat)))
    as (rows & Hrows & _ & Hsample & _).
  - by cbn.
  - split; [reflexivity|]. split; [|by repeat constructor].
    apply NoDup_cons_2; [by intros ?%list_elem_of_singleton|].
    apply NoDup_singleton.
  - repeat constructor.
  - by exists rows.
Defined.

Lemma died_is_not_stored_witness :
  ReplayBuffer.memorize 1 11 101 2 false true (ReplayBuffer.init 2 0)
  = Ok {| replay_buffer_capacity := 2; replay_buffer_nsteps := 1;
          buffer := [([1], 11, 101, [2], false)]; pos := 1; base := 0 |} ∧
  contents (see Examples.counting_see 1 11 101 2 false false
              (ReplayBuffer.init 2 0))
  = Ok ([([1], 11, 101, [2], false)], 1).
Proof.
  split; [reflexivity|].
  exact (proj1 (proj2 (proj2
    (died_is_not_stored Examples.counting_see 1 11 101 2 false true false
       (ReplayBuffer.init 2 0) _ eq_refl)))).
Defined.

Lemma memorize_keeps_most_recent_witness :
  0 < 2 ∧ (0 < 1)%nat ∧
  length Examples.three_seen = (Z.to_nat 2 + 1)%nat ∧
  ∃ self : ReplayBuffer.agent Z Z Z bool Z,
    memorize_all Examples.three_seen (ReplayBuffer.init 2 0) = Ok self ∧
    len self = 2 ∧
    from_pos self = stored <$> drop 1 Examples.three_seen.
Proof.
  split; [lia|]. split; [lia|]. split; [reflexivity|].
  apply (memorize_keeps_most_recent 2 1 0 Examples.three_seen);
    [lia | lia | reflexivity].
Defined.

End ReplayBufferFacts.

(** ** The target network *)

Module TargetDQNFacts.
Import PyFacts TargetDQN.

(** The test of [see] against the frames counted: after [n] more frames
    the remainder is below [n] exactly when a multiple of [tu] lies among
    them. *)
Lemma remainder_below_batch (tu n f : Z) :
  0 < tu → 0 < n →
  ((f + n) `mod` tu < n ↔ 0 < boundaries tu f (f + n)).
Proof.
  intros Htu Hn. unfold boundaries.
  pose proof (Z.div_mod (f + n) tu ltac:(lia)) as Hq'.
  pose proof (Z.mod_pos_bound (f + n) tu Htu) as Hm'.
  pose proof (Z.div_mod f tu ltac:(lia)) as Hq.
  pose proof (Z.mod_pos_bound f tu Htu) as Hm.
  split; intros H; nia.
Qed.

Lemma one_boundary_at_most (tu n f : Z) :
  0 < n ≤ tu → 0 ≤ boundaries tu f (f + n) ≤ 1.
Proof.
  intros Hn. unfold boundaries.
  pose proof (Z.div_le_mono f (f + n) tu ltac:(lia) ltac:(lia)).
  pose proof (Z.div_le_mono (f + n) (f + 1 * tu) tu ltac:(lia) ltac:(lia)).
  rewrite Z.div_add in * by lia. lia.
Qed.

Lemma boundaries_chain (tu f g h : Z) :
  boundaries tu f g + boundaries tu g h = boundaries tu f h.
Proof. unfold boundaries. lia. Qed.

Lemma boundaries_nonneg (tu f g : Z) :
  0 < tu → f ≤ g → 0 ≤ boundaries tu f g.
Proof.
  intros Htu Hfg. unfold boundaries.
  pose proof (Z.div_le_mono f g tu ltac:(lia) Hfg). lia.
Qed.

Section facts.
Context {Obs Act Rew Dn Params Rest : Type}.

Local Abbreviation parent := (TargetDQN.parent Params Rest).
Local Abbreviation agent := (TargetDQN.agent Params Rest).

Implicit Types (self : agent) (x : step_data Obs Act Rew Dn).
Implicit Types
  (parent_see : Obs → Act → Rew → Obs → Dn → parent → parent).

(** One call of [see]: the parent's [see] runs, and the target is synced
    with what the parent left exactly when the frames just counted contain
    a multiple of [target_update]. *)
Lemma see_step parent_see x self :
  counts_frames parent_see →
  0 < num_envs (base self) → 0 < target_update (base self) →
  let after_parent :=
    with_base (parent_see (sd_state x) (sd_action x) (sd_reward x)
                 (sd_next_state x) (sd_done x)) self in
  let f := frames_done (base self) in
  let n := num_envs (base self) in
  let tu := target_update (base self) in
  frames_done (base after_parent) = f + n ∧
  num_envs (base after_parent) = n ∧
  target_update (base after_parent) = tu ∧
  (0 < boundaries tu f (f + n) ∧
   see parent_see (sd_state x) (sd_action x) (sd_reward x)
     (sd_next_state x) (sd_done x) self = Ok (unfreeze after_parent)
   ∨
   boundaries tu f (f + n) = 0 ∧
   see parent_see (sd_state x) (sd_action x) (sd_reward x)
     (sd_next_state x) (sd_done x) self = Ok after_parent).
Proof.
  intros Hp Hn Htu. cbn zeta.
  destruct (Hp (sd_state x) (sd_action x) (sd_reward x) (sd_next_state x)
              (sd_done x) (base self)) as (Hf & Hn' & Htu').
  split; [done|]. split; [done|]. split; [done|].
  unfold see, mod_. cbn. rewrite Hf, Hn', Htu'.
  rewrite decide_False by lia. cbn.
  pose proof (remainder_below_batch (target_update (base self))
                (num_envs (base self)) (frames_done (base self)) Htu Hn) as Hiff.
  pose proof (boundaries_nonneg (target_update (base self))
                (frames_done (base self))
                (frames_done (base self) + num_envs (base self))
                Htu ltac:(lia)) as Hnn.
  case_decide as Hlt.
  - left. split; [by apply Hiff|done].
  - right. split; [|done].
    destruct (decide (0 < boundaries (target_update (base self))
                            (frames_done (base self))
                            (frames_done (base self) + num_envs (base self))))
      as [Hpos|Hpos]; [by apply Hiff in Hpos|lia].
Qed.

Lemma see_all_counts parent_see (xs : list (step_data Obs Act Rew Dn)) self :
  counts_frames parent_see →
  0 < num_envs (base self) ≤ target_update (base self) →
  ∃ self',
    see_all parent_see xs self = Ok self' ∧
    num_envs (base self') = num_envs (base self) ∧
    target_update (base self') = target_update (base self) ∧
    frames_done (base self')
    = frames_done (base self) + Z.of_nat (length xs) * num_envs (base self) ∧
    Z.of_nat (unfreeze_calls self')
    = Z.of_nat (unfreeze_calls self)
      + boundaries (target_update (base self)) (frames_done (base self))
          (frames_done (base self')) ∧
    (unfreeze_calls self' = unfreeze_calls self →
     target_net self' = target_net self).
Proof.
  intros Hp. revert self.
  induction xs as [|x xs IH]; intros self Hcfg.
  - exists self. cbn. unfold boundaries. repeat split; try done; lia.
  - destruct (see_step parent_see x self Hp ltac:(lia) ltac:(lia))
      as (Hf & Hn & Htu & Hcase).
    pose proof (one_boundary_at_most (target_update (base self))
                  (num_envs (base self)) (frames_done (base self)) Hcfg) as H1.
    set (mid := with_base _ self) in *.
    assert (∃ next,
      see parent_see (sd_state x) (sd_action x) (sd_reward x)
        (sd_next_state x) (sd_done x) self = Ok next ∧
      base next = base mid ∧
      Z.of_nat (unfreeze_calls next)
      = Z.of_nat (unfreeze_calls self)
        + boundaries (target_update (base self)) (frames_done (base self))
            (frames_done (base self) + num_envs (base self)) ∧
      (unfreeze_calls next = unfreeze_calls self →
       target_net next = target_net self)) as (next & Hsee & Hb & Hc & Ht).
    { destruct Hcase as [[Hpos Hsee]|[Hzero Hsee]].
      - exists (unfreeze mid). split; [done|]. split; [done|].
        split; [cbn; lia|]. cbn. lia.
      - exists mid. split; [done|]. split; [done|].
        split; [cbn; lia|]. done. }
    destruct (IH next) as (self' & Hrun & Hn' & Htu' & Hf' & Hc' & Ht').
    { rewrite Hb, Hn, Htu. done. }
    rewrite Hb in *. rewrite Hn, Htu, Hf in *.
    exists self'. cbn. unfold see_all in Hrun. rewrite Hsee. cbn.
    split; [done|]. split; [done|]. split; [done|].
    split; [rewrite Hf'; lia|].
    pose proof (boundaries_chain (target_update (base self))
                  (frames_done (base self))
                  (frames_done (base self) + num_envs (base self))
                  (frames_done (base self'))) as Hchain.
    pose proof (boundaries_nonneg (target_update (base self))
                  (frames_done (base self) + num_envs (base self))
                  (frames_done (base self')) ltac:(lia) ltac:(nia)) as Hnn.
    split; [lia|].
    intros Hsame. rewrite Ht', Ht; [done|lia|lia].
Qed.

(** C3, as the code has it.  Over a parent that counts [num_envs] frames
    per call of [see], with [0 < num_envs <= target_update]: a run of [see]
    succeeds and has called [unfreeze] once for each multiple of
    [target_update] among the frames it counted, and a run without any sync
    leaves the target parameters as they were; in one call the sync happens
    exactly when the frames just counted contain a multiple (then exactly
    one), after it the target parameters are the online parameters that the
    parent left, and without it the target parameters are unchanged,
    whatever the parent did to the online ones. *)
Theorem target_sync_cadence parent_see
    (xs : list (step_data Obs Act Rew Dn)) x self :
  counts_frames parent_see →
  0 < num_envs (base self) ≤ target_update (base self) →
  let f := frames_done (base self) in
  let n := num_envs (base self) in
  let tu := target_update (base self) in
  (∃ self',
     see_all parent_see xs self = Ok self' ∧
     frames_done (base self') = f + Z.of_nat (length xs) * n ∧
     Z.of_nat (unfreeze_calls self')
     = Z.of_nat (unfreeze_calls self)
       + boundaries tu f (frames_done (base self')) ∧
     (unfreeze_calls self' = unfreeze_calls self →
      target_net self' = target_net self)) ∧
  (∃ after,
     see parent_see (sd_state x) (sd_action x) (sd_reward x)
       (sd_next_state x) (sd_done x) self = Ok after ∧
     base after = parent_see (sd_state x) (sd_action x) (sd_reward x)
                    (sd_next_state x) (sd_done x) (base self) ∧
     ((f + n) `mod` tu < n ↔ 0 < boundaries tu f (f + n)) ∧
     (0 < boundaries tu f (f + n) →
      boundaries tu f (f + n) = 1 ∧
      unfreeze_calls after = Datatypes.S (unfreeze_calls self) ∧
      target_net after = q_net (base after)) ∧
     (boundaries tu f (f + n) = 0 →
      unfreeze_calls after = unfreeze_calls self ∧
      target_net after = target_net self)).
Proof.
  intros Hp Hcfg. cbn zeta. split.
  - destruct (see_all_counts parent_see xs self Hp Hcfg)
      as (self' & Hrun & _ & _ & Hf & Hc & Ht).
    by exists self'.
  - destruct (see_step parent_see x self Hp ltac:(lia) ltac:(lia))
      as (_ & _ & _ & Hcase).
    pose proof (one_boundary_at_most (target_update (base self))
                  (num_envs (base self)) (frames_done (base self)) Hcfg) as H1.
    pose proof (remainder_below_batch (target_update (base self))
                  (num_envs (base self)) (frames_done (base self))
                  ltac:(lia) ltac:(lia)) as Hiff.
    destruct Hcase as [[Hpos Hsee]|[Hzero Hsee]]; eexists;
      (split; [exact Hsee|]); (split; [done|]); (split; [done|]); split;
      try lia; try done.
    intros _. split; [lia|]. done.
Qed.

End facts.

(** The claim that the sync fires once at each multiple of [target_update]
    does not hold when [num_envs] exceeds [target_update]: with
    [target_update = 2] and 5 environments, the first call of [see] counts
    the frames 1 to 5, which contain the multiples 2 and 4, and syncs
    once. *)
Lemma one_sync_for_two_boundaries :
  counts_frames Examples.training_see ∧
  see Examples.training_see 1 0 0 2 false (Examples.target_agent 5 2)
  = Ok {| base := {| frames_done := 5; num_envs := 5; target_update := 2;
                     q_net := 8; rest := () |};
          target_net := 8;
          unfreeze_calls :=
            Datatypes.S (unfreeze_calls (Examples.target_agent 5 2)) |} ∧
  boundaries 2 0 5 = 2.
Proof. split; [|split]; [by intros ? ? ? ? ? []|reflexivity|reflexivity]. Qed.

Lemma target_sync_cadence_witness :
  counts_frames Examples.training_see ∧
  0 < 2 ≤ 4 ∧
  ∃ self',
    see_all Examples.training_see Examples.four_steps
      (Examples.target_agent 2 4) = Ok self' ∧
    frames_done (base self') = 8 ∧
    unfreeze_calls self' = 3%nat.
Proof.
  assert (Hp : counts_frames Examples.training_see) by (by intros ? ? ? ? ? []).
  split; [exact Hp|]. split; [lia|].
  destruct (proj1 (target_sync_cadence Examples.training_see
                     Examples.four_steps (StepData 1 0 0 2 false)
                     (Examples.target_agent 2 4) Hp ltac:(cbn; lia)))
    as (self' & Hrun & Hf & Hc & _).
  exists self'. split; [exact Hrun|]. split; [exact Hf|].
  rewrite Hf in Hc. change (Z.of_nat (unfreeze_calls self') = 3) in Hc. lia.
Defined.

End TargetDQNFacts.

(** ** The returns of a rollout *)

Module ReturnsFacts.
Import PyFacts A2C.

Section facts.
Context {S Obs Act Policy Dist Rest : Type}.
Context `{!TensorOps S, !Network S Obs Act Policy Dist}.

Local Abbreviation agent := (A2C.agent S Obs Act Policy Rest).

Implicit Types (self : agent) (values rets : list (list S)).

(** The body of the loop of [compute_returns]. *)
Local Abbreviation body self :=
  (λ (step : Z) (returns : list (list S)),
     next_return ← getitem returns (step + 1);
     done ← getitem (dones self) (step + 1);
     reward ← getitem (rewards self) step;
     setitem returns step
       (discounted (gamma (config self)) next_return done reward)).

Lemma returns_loop self (k : nat) rets :
  (k ≤ length (rewards self))%nat →
  (k < length (dones self))%nat →
  (k < length rets)%nat →
  ∃ rets',
    for_each (body self) (reversed_range k) rets = Ok rets' ∧
    length rets' = length rets ∧
    (∀ j, (k ≤ j)%nat → rets' !! j = rets !! j) ∧
    (∀ t, (t < k)%nat → follows self rets' t).
Proof.
  revert rets. induction k as [|k IH]; intros rets Hr Hd Hl.
  - exists rets. cbn. repeat split; try done. intros t Ht; lia.
  - unfold reversed_range. rewrite seq_S, fmap_app, rev_app_distr. cbn.
    destruct (lookup_lt_is_Some_2 rets (Datatypes.S k) Hl) as [nxt Hnxt].
    destruct (lookup_lt_is_Some_2 (dones self) (Datatypes.S k) Hd) as [d Hdn].
    destruct (lookup_lt_is_Some_2 (rewards self) k ltac:(lia)) as [r Hrw].
    rewrite (getitem_inside rets (Z.of_nat k + 1) nxt)
      by (try lia; by replace (Z.to_nat (Z.of_nat k + 1)) with (Datatypes.S k) by lia).
    cbn.
    rewrite (getitem_inside (dones self) (Z.of_nat k + 1) d)
      by (try lia; by replace (Z.to_nat (Z.of_nat k + 1)) with (Datatypes.S k) by lia).
    cbn.
    rewrite (getitem_inside (rewards self) (Z.of_nat k) r)
      by (try lia; by rewrite Nat2Z.id).
    cbn. rewrite setitem_inside by lia. cbn. rewrite Nat2Z.id.
    set (rets1 := <[k := _]> rets).
    destruct (IH rets1) as (rets' & Hrun & Hlen & Hkeep & Hfol);
      [lia | lia | subst rets1; rewrite length_insert; lia |].
    exists rets'. split; [exact Hrun|].
    split; [rewrite Hlen; subst rets1; by rewrite length_insert|].
    split.
    + intros j Hj. rewrite Hkeep by lia. subst rets1.
      by rewrite list_lookup_insert_ne by lia.
    + intros t Ht. destruct (decide (t = k)) as [->|Hne].
      * exists nxt, d, r. rewrite !Hkeep by lia. subst rets1.
        rewrite list_lookup_insert_ne by lia.
        rewrite list_lookup_insert_eq by lia. done.
      * apply Hfol. lia.
Qed.

Lemma compute_returns_slots values self (T : nat) :
  length (rewards self) = T →
  length (dones self) = Datatypes.S T →
  length (returns self) = Datatypes.S T →
  length values = Datatypes.S T →
  ∃ rets,
    compute_returns values self = Ok (with_returns rets self) ∧
    length rets = Datatypes.S T ∧
    rets !! T = values !! T ∧
    (∀ t, (t < T)%nat → follows self rets t).
Proof.
  intros Hr Hd Hl Hv. unfold compute_returns.
  destruct (lookup_lt_is_Some_2 values T ltac:(lia)) as [v Hlast].
  rewrite (getitem_last values v)
    by (rewrite Hv; by replace (Datatypes.S T - 1)%nat with T by lia).
  cbn. rewrite setitem_last by lia. cbn.
  rewrite Hl. replace (Datatypes.S T - 1)%nat with T by lia.
  destruct (returns_loop self T (<[T := v]> (returns self)))
    as (rets & Hrun & Hlen & Hkeep & Hfol);
    [lia | lia | rewrite length_insert; lia |].
  rewrite Hr, Hrun. cbn. exists rets. split; [done|].
  split; [by rewrite Hlen, length_insert|].
  split; [|done].
  rewrite Hkeep, Hlast by lia. apply list_lookup_insert_eq. lia.
Qed.

Lemma discounted_entry (g : S) (next_return done reward : list S) (e : nat) :
  discounted g next_return done reward !! e
  = (x ← next_return !! e; d ← done !! e; r ← reward !! e;
     Some (add (mul (mul x g) (sub one d)) r)).
Proof.
  unfold discounted. rewrite !lookup_zip_with, !list_lookup_fmap.
  destruct (next_return !! e); cbn; [|done].
  destruct (done !! e); cbn; done.
Qed.

Lemma discounted_length (g : S) (next_return done reward : list S) (N : nat) :
  length next_return = N → length done = N → length reward = N →
  length (discounted g next_return done reward) = N.
Proof.
  intros. unfold discounted. rewrite !length_zip_with, !length_fmap. lia.
Qed.

Lemma shaped_row {A} (T N : nat) (t : list (list A)) (i : nat) row :
  shaped T N t → t !! i = Some row → length row = N.
Proof. intros [_ Hall] Hi. by eapply Forall_lookup_1 in Hall. Qed.

Lemma shaped_entry {A} (T N : nat) (t : list (list A)) (i e : nat) :
  shaped T N t → (i < T)%nat → (e < N)%nat → is_Some (entry_at t i e).
Proof.
  intros Ht Hi He. unfold entry_at.
  destruct (lookup_lt_is_Some_2 t i ltac:(destruct Ht; lia)) as [row Hrow].
  rewrite Hrow. cbn. apply lookup_lt_is_Some_2.
  by rewrite (shaped_row T N t i row).
Qed.

Lemma returns_shaped values self (T N : nat) rets :
  shaped T N (rewards self) →
  shaped (Datatypes.S T) N (dones self) →
  shaped (Datatypes.S T) N values →
  length rets = Datatypes.S T →
  rets !! T = values !! T →
  (∀ t, (t < T)%nat → follows self rets t) →
  shaped (Datatypes.S T) N rets.
Proof.
  intros Hr Hd Hv Hlen Hlast Hfol. split; [done|].
  assert (Hdown : ∀ k, (k ≤ T)%nat →
            ∃ row, rets !! (T - k)%nat = Some row ∧ length row = N).
  { induction k as [|k IH]; intros Hk.
    - replace (T - 0)%nat with T by lia.
      destruct (lookup_lt_is_Some_2 values T ltac:(destruct Hv; lia))
        as [v Hvl].
      exists v. split; [congruence|]. exact (shaped_row _ _ _ _ _ Hv Hvl).
    - destruct (IH ltac:(lia)) as (nxt & Hnxt & Hw).
      destruct (Hfol (T - Datatypes.S k)%nat ltac:(lia))
        as (nxt' & d & r & Hn' & Hdn & Hrw & Hrow).
      replace (Datatypes.S (T - Datatypes.S k)) with (T - k)%nat in * by lia.
      assert (nxt' = nxt) as -> by congruence.
      eexists. split; [exact Hrow|].
      apply discounted_length;
        [done | exact (shaped_row _ _ _ _ _ Hd Hdn)
              | exact (shaped_row _ _ _ _ _ Hr Hrw)]. }
  apply Forall_lookup_2. intros j row Hj.
  assert (j < Datatypes.S T)%nat as Hjt
    by (rewrite <- Hlen; by eapply lookup_lt_Some).
  destruct (Hdown (T - j)%nat ltac:(lia)) as (row' & Hrow' & Hw).
  replace (T - (T - j))%nat with j in Hrow' by lia. congruence.
Qed.

Lemma returns_entries values self (T N : nat) rets :
  shaped T N (rewards self) →
  shaped (Datatypes.S T) N (dones self) →
  shaped (Datatypes.S T) N rets →
  (∀ t, (t < T)%nat → follows self rets t) →
  ∀ t e, (t < T)%nat → (e < N)%nat →
    ∃ x d r,
      entry_at rets (Datatypes.S t) e = Some x ∧
      entry_at (dones self) (Datatypes.S t) e = Some d ∧
      entry_at (rewards self) t e = Some r ∧
      entry_at rets t e
      = Some (add (mul (mul x (gamma (config self))) (sub one d)) r).
Proof.
  intros Hr Hd Hs Hfol t e Ht He.
  destruct (Hfol t Ht) as (nxt & d & r & Hnxt & Hdn & Hrw & Hrow).
  destruct (shaped_entry _ _ rets (Datatypes.S t) e Hs ltac:(lia) He)
    as [x Hx].
  destruct (shaped_entry _ _ (dones self) (Datatypes.S t) e Hd ltac:(lia) He)
    as [dn Hdne].
  destruct (shaped_entry _ _ (rewards self) t e Hr Ht He) as [rw Hrwe].
  exists x, dn, rw. split; [done|]. split; [done|]. split; [done|].
  unfold entry_at in *. rewrite Hrow. cbn. rewrite discounted_entry.
  rewrite Hnxt in Hx. rewrite Hdn in Hdne. rewrite Hrw in Hrwe.
  cbn in Hx, Hdne, Hrwe. rewrite Hx, Hdne, Hrwe. done.
Qed.

Lemma compute_returns_entrywise values self (T N : nat) :
  shaped T N (rewards self) →
  shaped (Datatypes.S T) N (dones self) →
  length (returns self) = Datatypes.S T →
  shaped (Datatypes.S T) N values →
  ∃ rets,
    compute_returns values self = Ok (with_returns rets self) ∧
    shaped (Datatypes.S T) N rets ∧
    rets !! T = values !! T ∧
    (∀ t, (t < T)%nat → follows self rets t) ∧
    (∀ t e, (t < T)%nat → (e < N)%nat →
       ∃ x d r,
         entry_at rets (Datatypes.S t) e = Some x ∧
         entry_at (dones self) (Datatypes.S t) e = Some d ∧
         entry_at (rewards self) t e = Some r ∧
         entry_at rets t e
         = Some (add (mul (mul x (gamma (config self))) (sub one d)) r)).
Proof.
  intros Hr Hd Hl Hv.
  destruct (compute_returns_slots values self T)
    as (rets & Hrun & Hlen & Hlast & Hfol);
    [by destruct Hr | by destruct Hd | done | by destruct Hv |].
  pose proof (returns_shaped values self T N rets Hr Hd Hv Hlen Hlast Hfol)
    as Hs.
  exists rets. do 4 (split; [done|]).
  by apply (returns_entries values self T N).
Qed.

(** C1.  On a rollout memory of [T] steps over [N] environments, whatever
    the rewards, the done flags and the value estimates hold,
    [compute_returns] returns; it sets [returns[T] = values[T]] and, for
    every [t < T], [returns[t] = returns[t+1] * gamma * (1 - dones[t+1]) +
    rewards[t]], entry by entry; where the done flag is 0 (and [1 - 0 = 1],
    [y * 1 = y] hold for the scalars) this is the discounted sum
    [returns[t] = returns[t+1] * gamma + rewards[t]]. *)
Theorem compute_returns_recursion values self (T N : nat) :
  shaped T N (rewards self) →
  shaped (Datatypes.S T) N (dones self) →
  length (returns self) = Datatypes.S T →
  shaped (Datatypes.S T) N values →
  ∃ rets,
    compute_returns values self = Ok (with_returns rets self) ∧
    shaped (Datatypes.S T) N rets ∧
    rets !! T = values !! T ∧
    (∀ t, (t < T)%nat → follows self rets t) ∧
    (∀ t e, (t < T)%nat → (e < N)%nat →
       ∃ x d r,
         entry_at rets (Datatypes.S t) e = Some x ∧
         entry_at (dones self) (Datatypes.S t) e = Some d ∧
         entry_at (rewards self) t e = Some r ∧
         entry_at rets t e
         = Some (add (mul (mul x (gamma (config self))) (sub one d)) r)) ∧
    (sub one zero = one → (∀ y : S, mul y one = y) →
     ∀ t e, (t < T)%nat → (e < N)%nat →
       entry_at (dones self) (Datatypes.S t) e = Some zero →
       ∃ x r,
         entry_at rets (Datatypes.S t) e = Some x ∧
         entry_at (rewards self) t e = Some r ∧
         entry_at rets t e = Some (add (mul x (gamma (config self))) r)).
Proof.
  intros Hr Hd Hl Hv.
  destruct (compute_returns_entrywise values self T N Hr Hd Hl Hv)
    as (rets & Hrun & Hs & Hlast & Hfol & Hent).
  exists rets. do 5 (split; [done|]).
  intros Hone Hmul t e Ht He Hzero.
  destruct (Hent t e Ht He) as (x & d & r & Hx & Hdn & Hrw & Hrow).
  exists x, r. split; [done|]. split; [done|].
  rewrite Hrow. assert (d = zero) as -> by congruence.
  by rewrite Hone, Hmul.
Qed.


End facts.

(** The hand computation: rewards 1, 1, 1, bootstrap value 5, discount 1/2
    and no episode end give the returns 19/8, 11/4, 7/2 and 5. *)
Lemma compute_returns_recursion_witness :
  shaped 3 1 (rewards (Examples.hand_rollout Examples.no_done)) ∧
  shaped 4 1 (dones (Examples.hand_rollout Examples.no_done)) ∧
  shaped 4 1 (Examples.hand_values (Examples.q 5 1)) ∧
  (∃ rets,
     compute_returns (TensorOps0 := Examples.exact_ops)
       (Examples.hand_values (Examples.q 5 1))
       (Examples.hand_rollout Examples.no_done)
     = Ok (with_returns rets (Examples.hand_rollout Examples.no_done)) ∧
     rets !! 3%nat = Some [Examples.q 5 1]) ∧
  Examples.returns_left
    (compute_returns (TensorOps0 := Examples.exact_ops)
       (Examples.hand_values (Examples.q 5 1))
       (Examples.hand_rollout Examples.no_done))
  = Some [[19 # 8]; [11 # 4]; [7 # 2]; [5 # 1]]%Q.
Proof.
  assert (H1 : shaped 3 1 (rewards (Examples.hand_rollout Examples.no_done)))
    by (split; [reflexivity | repeat constructor]).
  assert (H2 : shaped 4 1 (dones (Examples.hand_rollout Examples.no_done)))
    by (split; [reflexivity | repeat constructor]).
  assert (H3 : shaped 4 1 (Examples.hand_values (Examples.q 5 1)))
    by (split; [reflexivity | repeat constructor]).
  split; [exact H1|]. split; [exact H2|]. split; [exact H3|].
  split; [|vm_compute; reflexivity].
  destruct (compute_returns_recursion (TensorOps0 := Examples.exact_ops)
              (Examples.hand_values (Examples.q 5 1))
              (Examples.hand_rollout Examples.no_done) 3 1 H1 H2 eq_refl H3)
    as (rets & Hrun & _ & Hlast & _).
  exists rets. split; [exact Hrun | exact Hlast].
Defined.

(** The same rollout with the episode ending at the last step: the
    bootstrap value is masked, the returns are 7/4, 3/2, 1 (and 5 in the
    bootstrap slot). *)
Lemma hand_computation_with_last_done :
  Examples.returns_left
    (compute_returns (TensorOps0 := Examples.exact_ops)
       (Examples.hand_values (Examples.q 5 1))
       (Examples.hand_rollout Examples.done_at_last))
  = Some [[7 # 4]; [3 # 2]; [1 # 1]; [5 # 1]]%Q.
Proof. vm_compute. reflexivity. Qed.

(** The law of the mask on floats: a finite number times zero is a zero,
    and a zero added to anything but the negative zero changes nothing. *)
Lemma Prim2SF_inj x y : FloatOps.Prim2SF x = FloatOps.Prim2SF y → x = y.
Proof.
  intros Heq. rewrite <- (FloatAxioms.SF2Prim_Prim2SF x), Heq.
  apply FloatAxioms.SF2Prim_Prim2SF.
Qed.


(** What is infinite or NaN is not masked: its product with zero is NaN,
    and so is the sum with any reward. *)
Lemma float_not_masked y r :
  ¬ Examples.float_finite y →
  PrimFloat.add (PrimFloat.mul y PrimFloat.zero) r = PrimFloat.nan.
Proof.
  unfold Examples.float_finite.
  rewrite !FloatAxioms.classify_spec. intros Hy.
  apply Prim2SF_inj.
  rewrite FloatAxioms.add_spec, FloatAxioms.mul_spec.
  change (FloatOps.Prim2SF PrimFloat.zero) with (SpecFloat.S754_zero false).
  change (FloatOps.Prim2SF PrimFloat.nan) with SpecFloat.S754_nan.
  destruct (FloatOps.Prim2SF y) as [[|]| [|] | |[|] my ey]; cbn in *;
    try done; exfalso; apply Hy; try done;
    match goal with |- context [if ?c then _ else _] => by destruct c end.
Qed.



End ReturnsFacts.

(** ** The optimization step of A2C *)

Module UpdateFacts.
Import PyFacts A2C ReturnsFacts.

Lemma shaped_concat_length {A} (T N : nat) (t : list (list A)) :
  shaped T N t → length (concat t) = (T * N)%nat.
Proof.
  intros [<- Hall]. induction Hall as [|row t Hrow _ IH]; cbn; [done|].
  rewrite length_app, Hrow, IH. done.
Qed.

Lemma size_shaped {A} (T N : nat) (t : list (list A)) :
  shaped T N t → (0 < T)%nat → size t = (T, N).
Proof.
  intros [Hlen Hall] HT. unfold size. rewrite Hlen.
  destruct t as [|row t]; [cbn in Hlen; lia|].
  cbn. f_equal. by apply Forall_cons_1 in Hall as [-> _].
Qed.


Lemma view_shaped {A} (rows cols : nat) (flat : list A) :
  length flat = (rows * cols)%nat →
  view rows cols flat = Ok (reshape (replicate rows cols) flat) ∧
  length (reshape (replicate rows cols) flat) = rows.
Proof.
  intros Hlen. unfold view. rewrite decide_True by done.
  split; [done|]. by rewrite length_reshape, length_replicate.
Qed.

Lemma pointwise_pointwise2 {A B C D} (f : C → D) (g : A → B → C)
    (t : list (list A)) (u : list (list B)) :
  pointwise f (pointwise2 g t u) = pointwise2 (λ x y, f (g x y)) t u.
Proof.
  unfold pointwise, pointwise2. revert u.
  induction t as [|row t IH]; intros [|row' u]; cbn; [done..|].
  f_equal; [|apply IH].
  revert row'. induction row as [|x row IHr]; intros [|y row']; cbn; [done..|].
  f_equal. apply IHr.
Qed.

Lemma pointwise2_pointwise_l {A A' B C} (g : A' → B → C) (f : A → A')
    (t : list (list A)) (u : list (list B)) :
  pointwise2 g (pointwise f t) u = pointwise2 (λ x y, g (f x) y) t u.
Proof.
  unfold pointwise, pointwise2. revert u.
  induction t as [|row t IH]; intros [|row' u]; cbn; [done..|].
  f_equal; [|apply IH].
  revert row'. induction row as [|x row IHr]; intros [|y row']; cbn; [done..|].
  f_equal. apply IHr.
Qed.

Lemma pointwise2_pointwise_r {A B B' C} (g : A → B' → C) (f : B → B')
    (t : list (list A)) (u : list (list B)) :
  pointwise2 g t (pointwise f u) = pointwise2 (λ x y, g x (f y)) t u.
Proof.
  unfold pointwise, pointwise2. revert u.
  induction t as [|row t IH]; intros [|row' u]; cbn; [done..|].
  f_equal; [|apply IH].
  revert row'. induction row as [|x row IHr]; intros [|y row']; cbn; [done..|].
  f_equal. apply IHr.
Qed.

Lemma pointwise_compose {A B C} (g : B → C) (f : A → B) (t : list (list A)) :
  pointwise g (pointwise f t) = pointwise (λ x, g (f x)) t.
Proof.
  unfold pointwise. rewrite <- list_fmap_compose.
  apply list_fmap_ext. intros _ row _. cbn. by rewrite <- list_fmap_compose.
Qed.

Lemma pointwise_take {A B} (f : A → B) (n : nat) (t : list (list A)) :
  pointwise f (take n t) = take n (pointwise f t).
Proof. unfold pointwise. apply fmap_take. Qed.

Section facts.
Context {S Obs Act Policy Dist Rest : Type}.
Context `{!TensorOps S, !Network S Obs Act Policy Dist}.

Local Abbreviation parent := (A2C.parent S Rest).
Local Abbreviation agent := (A2C.agent S Obs Act Policy Rest).

Implicit Types (self : agent) (b : parent).




Lemma update_losses_spec self (N : nat) :
  one_output_per_sample → 0 < rollout (config self) → well_shaped N self →
  let T := length (rewards self) in
  ∃ rets,
    compute_returns (viewed_values self N) self = Ok (with_returns rets self) ∧
    length rets = Datatypes.S T ∧
    update_losses self
    = Ok ({| base := base self; config := config self;
             policy := train (policy self);
             observations := observations self; rewards := rewards self;
             actions := actions self; dones := dones self; returns := rets;
             step := step self; update_calls := update_calls self |},
          {| actor_loss :=
               spec_actor_loss T rets (viewed_values self N)
                 (viewed_log_probs self N);
             critic_loss := spec_critic_loss T rets (viewed_values self N);
             dist_entropy := mean (drop_last (sample_entropies self));
             loss :=
               spec_total_loss (critic_loss_weight (config self))
                 (entropy_loss_weight (config self))
                 (spec_actor_loss T rets (viewed_values self N)
                    (viewed_log_probs self N))
                 (spec_critic_loss T rets (viewed_values self N))
                 (mean (drop_last (sample_entropies self))) |}).
Proof.
  intros [Hval Hlp] Hroll (Hobs & Hrew & Hact & Hdn & Hret). cbn zeta.
  set (T := Z.to_nat (rollout (config self))) in *.
  assert (HT : length (rewards self) = T) by (by destruct Hrew).
  assert (HT0 : (0 < T)%nat) by (subst T; lia).
  assert (Hv : length (forward (train (policy self))
                         (concat (observations self))).2
               = ((T + 1) * N)%nat).
  { rewrite Hval, (shaped_concat_length (Datatypes.S T) N) by done. lia. }
  assert (Hl : length (log_prob
                 (forward (train (policy self)) (concat (observations self))).1
                 (concat (actions self))) = ((T + 1) * N)%nat).
  { rewrite Hlp, (shaped_concat_length (Datatypes.S T) N) by done. lia. }
  destruct (view_shaped (T + 1) N _ Hv) as [Hview Hvlen].
  destruct (view_shaped (T + 1) N _ Hl) as [Hviewl Hllen].
  destruct (compute_returns_slots (viewed_values self N) self T)
    as (rets & Hrun & Hlen & _ & _);
    [done | done | done
     | unfold viewed_values; rewrite HT, Hvlen; lia |].
  exists rets. rewrite HT. split; [done|]. split; [done|].
  unfold update_losses. rewrite (size_shaped T N) by done. cbn [fst snd].
  rewrite Hview, bind_Ok, Hviewl, bind_Ok.
  unfold viewed_values in Hrun. rewrite HT in Hrun. rewrite Hrun, bind_Ok.
  unfold spec_total_loss, spec_actor_loss, spec_critic_loss, spec_advantage,
    viewed_values, viewed_log_probs, sample_entropies.
  rewrite HT. cbn [returns with_returns base config policy observations
                     rewards actions dones step update_calls].
  rewrite (drop_last_take rets T) by done.
  rewrite !(drop_last_take (reshape _ _) T) by lia.
  rewrite !pointwise2_pointwise_l. done.
Qed.

Lemma update_spec self (N : nat) :
  one_output_per_sample → 0 < rollout (config self) → well_shaped N self →
  let T := length (rewards self) in
  ∃ rets,
    compute_returns (viewed_values self N) self = Ok (with_returns rets self) ∧
    length rets = Datatypes.S T ∧
    let actor :=
      spec_actor_loss T rets (viewed_values self N) (viewed_log_probs self N) in
    let critic := spec_critic_loss T rets (viewed_values self N) in
    let ent := mean (drop_last (sample_entropies self)) in
    update self
    = Ok {| base := log "entropy_loss" ent
                      (log "critic_loss" critic
                         (log "actor_loss" actor (base self)));
            config := config self;
            policy :=
              optimize (grad_norm_max (config self)) (train (policy self))
                (spec_total_loss (critic_loss_weight (config self))
                   (entropy_loss_weight (config self)) actor critic ent);
            observations := observations self; rewards := rewards self;
            actions := actions self; dones := dones self; returns := rets;
            step := step self;
            update_calls := Datatypes.S (update_calls self) |}.
Proof.
  intros Hnet Hroll Hshape. cbn zeta.
  destruct (update_losses_spec self N Hnet Hroll Hshape)
    as (rets & Hrun & Hlen & Hlosses).
  exists rets. split; [done|]. split; [done|].
  unfold update. rewrite Hlosses, bind_Ok. reflexivity.
Qed.








(** What [update] averages for the entropy term: all the samples but the
    last one of the batch. *)
Lemma entropy_term_spec self (N : nat) :
  one_output_per_sample → 0 < rollout (config self) → well_shaped N self →
  ∃ self1 l,
    update_losses self = Ok (self1, l) ∧
    dist_entropy l
    = mean (take (length (sample_entropies self) - 1) (sample_entropies self)).
Proof.
  intros Hnet Hroll Hshape.
  destruct (update_losses_spec self N Hnet Hroll Hshape)
    as (rets & _ & _ & Hlosses).
  cbn zeta in Hlosses. by eexists _, _.
Qed.

End facts.

Lemma toy_network_per_sample :
  one_output_per_sample (Network0 := Examples.toy_network).
Proof. split; intros; cbn; apply length_fmap. Qed.


(** C6.  With two environments and a rollout of one step the batch holds
    four samples, of entropies 1, 2 (first time slot) and 3, 4 (bootstrap
    slot).  [update] averages 1, 2 and 3; the mean over the first time slot
    is that of 1 and 2. *)
Theorem entropy_drops_one_sample :
  Examples.entropy_term
    (update_losses (TensorOps0 := Examples.exact_ops)
       (Network0 := Examples.toy_network) Examples.two_envs)
  = Some (2 # 1)%Q ∧
  this (spec_entropy (TensorOps0 := Examples.exact_ops) 1 2
          (sample_entropies (Network0 := Examples.toy_network)
             Examples.two_envs))
  = (3 # 2)%Q.
Proof. split; vm_compute; reflexivity. Qed.



End UpdateFacts.

(** ** What [detach] keeps out of the gradient *)

Module GradientFacts.
Import A2C Autograd UpdateFacts.

Section facts.
Context {S : Type} `{!TensorOps S}.

Implicit Types (t u rets values : list (list (S * S))).

Lemma detach_numbers t u :
  numbers t = numbers u →
  pointwise (detach (TensorOps := tracked_ops)) t
  = pointwise (detach (TensorOps := tracked_ops)) u.
Proof.
  intros Hnum.
  assert (Hsplit : ∀ t, pointwise (detach (TensorOps := tracked_ops)) t
                        = pointwise (λ a : S, (a, zero)) (numbers t)).
  { intros t'. unfold numbers. by rewrite pointwise_compose. }
  by rewrite !Hsplit, Hnum.
Qed.

Lemma numbers_advantage (R : nat) rets values :
  numbers (spec_advantage (TensorOps0 := tracked_ops) R rets values)
  = pointwise2 sub (take R (numbers rets)) (take R (numbers values)).
Proof.
  unfold numbers, spec_advantage.
  rewrite pointwise_pointwise2, <- !pointwise_take.
  by rewrite pointwise2_pointwise_l, pointwise2_pointwise_r.
Qed.

(** The derivatives of the returns do not enter the critic loss: the
    returns are a fixed target, the critic learns through its value
    estimates alone. *)
Lemma critic_target_is_fixed (R : nat) rets rets' values :
  numbers rets = numbers rets' →
  spec_critic_loss (TensorOps0 := tracked_ops) R rets values
  = spec_critic_loss (TensorOps0 := tracked_ops) R rets' values.
Proof.
  intros Hnum. unfold spec_critic_loss, spec_advantage.
  rewrite <- !(pointwise2_pointwise_l sub detach).
  rewrite !pointwise_take. by rewrite (detach_numbers rets rets').
Qed.

(** Neither the derivatives of the returns nor those of the value estimates
    enter the actor loss: the actor learns through the log-probabilities
    alone. *)
Lemma actor_advantage_is_fixed (R : nat) rets rets' values values' log_probs :
  numbers rets = numbers rets' → numbers values = numbers values' →
  spec_actor_loss (TensorOps0 := tracked_ops) R rets values log_probs
  = spec_actor_loss (TensorOps0 := tracked_ops) R rets' values' log_probs.
Proof.
  intros Hrets Hvalues. unfold spec_actor_loss.
  rewrite <- !(pointwise2_pointwise_l mul detach).
  rewrite (detach_numbers
             (spec_advantage (TensorOps0 := tracked_ops) R rets values)
             (spec_advantage (TensorOps0 := tracked_ops) R rets' values'));
    [done|].
  by rewrite !numbers_advantage, Hrets, Hvalues.
Qed.

End facts.
End GradientFacts.

(** ** The order of the overrides of [see] *)

Module ChainFacts.
Import PyFacts ReplayBufferFacts.

Section facts.
Context {S Obs Act Rew Dn Died Base Params Policy Dist Rest : Type}.
Context `{!A2C.TensorOps S, !A2C.Network S Obs Act Policy Dist}.







End facts.


End ChainFacts.

(** ** More on the replay memory: any state, any run, sampling what was
    memorized, checkpoints *)

Module MemoryFacts.
Import PyFacts ReplayBuffer ReplayBufferFacts.

Section facts.
Context {Obs Act Rew Dn Died Base : Type}.

Local Abbreviation agent := (ReplayBuffer.agent Obs Act Rew Dn Base).
Local Abbreviation entry := (ReplayBuffer.entry Obs Act Rew Dn).
Local Abbreviation seen := (step_data Obs Act Rew Dn * Died)%type.

Implicit Types (self : agent) (x : seen) (xs : list seen) (cap : Z).

(** X1.  From the constructor's state, with a positive capacity, any number
    of memorizations succeeds; the length of the buffer is the smaller of
    their number and the capacity, the cursor is their number modulo the
    capacity, and until the capacity is exceeded the buffer is the
    transitions in the order they came. *)
Theorem memory_stays_within_capacity cap (b : Base) xs :
  0 < cap →
  ∃ self,
    memorize_all xs (init cap b) = Ok self ∧
    replay_buffer_capacity self = cap ∧ base self = b ∧
    len self = Z.of_nat (length xs) `min` cap ∧
    len self ≤ cap ∧
    pos self = Z.of_nat (length xs) `mod` cap ∧
    (Z.of_nat (length xs) ≤ cap → buffer self = stored <$> xs).
Proof.
  intros Hcap.
  destruct (memorize_all_holds cap b xs Hcap)
    as (self & Hrun & (Hc & Hlen & Hpos & Hwin) & Hb).
  exists self. do 4 (split; [done|]). split; [lia|]. split; [done|].
  intros Hfew.
  assert ((length xs - Z.to_nat cap)%nat = 0%nat) as Hz by lia.
  rewrite Hz, drop_0 in Hwin. rewrite <- Hwin. unfold from_pos.
  destruct (decide (Z.of_nat (length xs) = cap)) as [Hfull|Hless].
  - rewrite Hpos, Hfull, Z_mod_same_full. cbn. by rewrite app_nil_r.
  - rewrite Hpos, Z.mod_small by lia. rewrite Nat2Z.id.
    assert (length (buffer self) = length xs) as <-
      by (unfold len in Hlen; lia).
    by rewrite drop_all, take_ge by lia.
Qed.

(** X2.  When [memorize] raises, from any state (also one that [load]
    restored): [IndexError] exactly when the buffer is not below capacity
    and the cursor is outside it (counting from the end for a negative
    cursor); [ZeroDivisionError] exactly when the capacity is 0 and the
    cursor is inside the buffer. *)
Theorem memorize_raises (state : Obs) (action : Act) (reward : Rew)
    (next_state : Obs) (done : Dn) (died : Died) self :
  (memorize state action reward next_state done died self = Raise IndexError
   ↔ replay_buffer_capacity self ≤ len self ∧
     ¬ (- len self ≤ pos self < len self)) ∧
  (memorize state action reward next_state done died self
   = Raise ZeroDivisionError
   ↔ replay_buffer_capacity self = 0 ∧ - len self ≤ pos self < len self) ∧
  ((len self < replay_buffer_capacity self ∨
    replay_buffer_capacity self ≠ 0 ∧ - len self ≤ pos self < len self)
   ↔ ∃ self', memorize state action reward next_state done died self
              = Ok self').
Proof.
  unfold memorize, setitem, index, mod_, len.
  pose proof (Nat2Z.is_nonneg (length (buffer self))) as Hn.
  destruct (decide (Z.of_nat (length (buffer self))
                    < replay_buffer_capacity self)) as [Hlt|Hge].
  - rewrite bind_Ok. cbn beta. rewrite (decide_False (P := _ = 0)) by lia.
    rewrite bind_Ok. cbn beta.
    split; [split; [done|lia]|]. split; [split; [done|lia]|].
    split; [eauto|]. intros _. by left.
  - destruct (decide (0 ≤ pos self < Z.of_nat (length (buffer self))))
      as [Hin|Hout].
    + rewrite !bind_Ok. cbn beta.
      destruct (decide (replay_buffer_capacity self = 0)) as [Hz|Hnz].
      * rewrite bind_Raise.
        split; [split; [done|lia]|]. split; [split; [lia|done]|].
        split; [lia|]. by intros [? ?].
      * rewrite bind_Ok. cbn beta.
        split; [split; [done|lia]|]. split; [split; [done|lia]|].
        split; [eauto|]. intros _. right. lia.
    + destruct (decide (- Z.of_nat (length (buffer self)) ≤ pos self < 0))
        as [Hneg|Hnone].
      * rewrite !bind_Ok. cbn beta.
        destruct (decide (replay_buffer_capacity self = 0)) as [Hz|Hnz].
        -- rewrite bind_Raise.
           split; [split; [done|lia]|]. split; [split; [lia|done]|].
           split; [lia|]. by intros [? ?].
        -- rewrite bind_Ok. cbn beta.
           split; [split; [done|lia]|]. split; [split; [done|lia]|].
           split; [eauto|]. intros _. right. lia.
      * rewrite !bind_Raise.
        split; [split; [lia|done]|]. split; [split; [done|lia]|].
        split; [lia|]. by intros [? ?].
Qed.

(** X3.  When [memorize] returns, from any state: the capacity and the
    parent's attributes are untouched, the buffer is one longer if it was
    below capacity and as long as before otherwise (so it never outgrows a
    capacity it was within), the cursor is [(pos + 1) mod capacity], and
    every entry stays in its slot except the one under the cursor of a
    buffer that is not below capacity. *)
Theorem memorize_keeps_entries (state : Obs) (action : Act) (reward : Rew)
    (next_state : Obs) (done : Dn) (died : Died) self self' :
  memorize state action reward next_state done died self = Ok self' →
  replay_buffer_capacity self' = replay_buffer_capacity self ∧
  base self' = base self ∧
  len self' = (if decide (len self < replay_buffer_capacity self)
               then len self + 1 else len self) ∧
  len self' ≤ len self `max` replay_buffer_capacity self ∧
  pos self' = (pos self + 1) `mod` replay_buffer_capacity self ∧
  (∀ i e, buffer self !! i = Some e →
     len self < replay_buffer_capacity self ∨
     Z.of_nat i ≠ (if decide (0 ≤ pos self) then pos self
                   else len self + pos self) →
     buffer self' !! i = Some e).
Proof.
  unfold memorize, setitem, index, mod_, len.
  destruct (decide (Z.of_nat (length (buffer self))
                    < replay_buffer_capacity self)) as [Hlt|Hge].
  - rewrite bind_Ok. cbn beta.
    destruct (decide (replay_buffer_capacity self = 0)); [done|].
    rewrite bind_Ok. cbn beta. intros [= <-]. cbn.
    do 2 (split; [done|]). split; [rewrite length_app; cbn; lia|].
    split; [rewrite length_app; cbn; lia|]. split; [done|].
    intros i e He _. by apply lookup_app_l_Some.
  - destruct (decide (0 ≤ pos self < Z.of_nat (length (buffer self))))
      as [Hin|Hout].
    + rewrite !bind_Ok. cbn beta.
      destruct (decide (replay_buffer_capacity self = 0)); [done|].
      rewrite bind_Ok. cbn beta. intros [= <-]. cbn.
      do 2 (split; [done|]). rewrite length_insert.
      split; [done|]. split; [lia|]. split; [done|].
      intros i e He [?|Hne]; [lia|].
      rewrite decide_True in Hne by lia.
      by rewrite list_lookup_insert_ne by lia.
    + destruct (decide (- Z.of_nat (length (buffer self)) ≤ pos self < 0))
        as [Hneg|Hnone]; [|done].
      rewrite !bind_Ok. cbn beta.
      destruct (decide (replay_buffer_capacity self = 0)); [done|].
      rewrite bind_Ok. cbn beta. intros [= <-]. cbn.
      do 2 (split; [done|]). rewrite length_insert.
      split; [done|]. split; [lia|]. split; [done|].
      intros i e He [?|Hne]; [lia|].
      rewrite decide_False in Hne by lia.
      by rewrite list_lookup_insert_ne by lia.
Qed.

Lemma buffer_holds_recent cap xs self (e : entry) :
  replay_buffer_capacity self = cap → 0 ≤ pos self →
  from_pos self = stored <$> drop (length xs - Z.to_nat cap)%nat xs →
  e ∈ buffer self →
  ∃ x, x ∈ drop (length xs - Z.to_nat cap)%nat xs ∧ e = stored x.
Proof.
  intros _ Hpos Hwin He.
  assert (He' : e ∈ from_pos self).
  { unfold from_pos. rewrite <- (take_drop (Z.to_nat (pos self)) (buffer self))
      in He. apply elem_of_app in He. apply elem_of_app. tauto. }
  rewrite Hwin in He'. apply list_elem_of_fmap in He' as (x & -> & Hx).
  by exists x.
Qed.

Lemma rows_of_drawn (recent : list seen) (rows : list entry) :
  Forall (λ e, ∃ x, x ∈ recent ∧ e = stored x) rows →
  ∃ drawn, rows = stored <$> drawn ∧ Forall (λ x, x ∈ recent) drawn.
Proof.
  induction 1 as [|e rows (x & Hx & ->) _ (drawn & -> & Hall)].
  - by exists [].
  - exists (x :: drawn). by split; [|constructor].
Qed.

Lemma concat_stored_states (drawn : list seen) :
  concat (entry_state <$> (stored <$> drawn)) = (λ x, sd_state x.1) <$> drawn ∧
  concat (entry_next_state <$> (stored <$> drawn))
  = (λ x, sd_next_state x.1) <$> drawn.
Proof.
  split; induction drawn as [|x drawn IH]; cbn; [done| |done|];
    by rewrite IH.
Qed.

(** X4.  What is sampled was memorized.  From the constructor's state with
    a positive capacity, after any run of memorizations, [sample] with
    [1 <= batch_size <= len(buffer)] returns the states, actions, rewards,
    next states and dones of [batch_size] of the last [capacity]
    transitions memorized, one row for each (the concatenation undoes the
    leading axis that [memorize] added), with weights 1; nothing of what
    was overwritten comes back. *)
Theorem sampled_batch_is_memorized cap (b : Base) xs self
    (batch_size : Z) (choice : list nat) :
  0 < cap →
  memorize_all xs (init cap b) = Ok self →
  1 ≤ batch_size ≤ len self →
  selection (length (buffer self)) batch_size choice →
  ∃ drawn : list seen,
    sample batch_size choice self
    = Ok (((λ x, sd_state x.1) <$> drawn, (λ x, sd_action x.1) <$> drawn,
           (λ x, sd_reward x.1) <$> drawn,
           (λ x, sd_next_state x.1) <$> drawn,
           (λ x, sd_done x.1) <$> drawn,
           replicate (Z.to_nat batch_size) 1%Q), self) ∧
    Z.of_nat (length drawn) = batch_size ∧
    Forall (λ x, x ∈ drop (length xs - Z.to_nat cap)%nat xs) drawn.
Proof.
  intros Hcap Hrun Hsize (Hlen & _ & Hpos).
  destruct (memorize_all_holds cap b xs Hcap)
    as (self0 & Hrun0 & (Hc & _ & Hp & Hwin) & _).
  assert (self0 = self) as -> by congruence.
  destruct (random_sample_rows (buffer self) choice Hpos)
    as (rows & Hrows & Hall).
  assert (Hfrom : Forall (λ e, ∃ x,
            x ∈ drop (length xs - Z.to_nat cap)%nat xs ∧ e = stored x) rows).
  { apply Forall_forall. intros e [j Hj]%list_elem_of_lookup.
    destruct (Forall2_lookup_r _ _ _ _ _ Hall Hj) as (i & _ & Hi).
    apply (buffer_holds_recent cap xs self e Hc); [|done|].
    - rewrite Hp. apply Z.mod_pos_bound. lia.
    - apply list_elem_of_lookup. eauto. }
  destruct (rows_of_drawn _ rows Hfrom) as (drawn & -> & Hdrawn).
  assert (Hn : length drawn = length choice).
  { apply Forall2_length in Hall. rewrite length_fmap in Hall. lia. }
  exists drawn. split; [|split; [lia|done]].
  unfold sample, random_sample. rewrite decide_True by (unfold len in *; lia).
  rewrite bind_Ok. cbn beta. rewrite Hrows.
  destruct drawn as [|x drawn]; [cbn in Hn; lia|].
  destruct (concat_stored_states drawn) as [Hs Hns].
  cbn [unzip5 fmap list_fmap]. rewrite bind_Ok.
  cbn beta iota. cbn [concat]. rewrite Hs, Hns.
  rewrite <- !list_fmap_compose. reflexivity.
Qed.

End facts.

Section checkpoints.
Context {Obs Act Rew Dn Base Extra : Type}.

Local Abbreviation agent := (ReplayBuffer.agent Obs Act Rew Dn Base).
Local Abbreviation pickled := (ReplayBuffer.pickled Obs Act Rew Dn Extra).
Local Abbreviation directory := (gmap string (list pickled)).

Implicit Types (self other : agent) (dir : directory) (name : string).

(** X5.  A memory saved is the memory loaded.  [save] with the flag set
    writes the buffer and the cursor into the file [name-memory], replacing
    what the file held, and touches no other file that the parent's [save]
    left; [load] with the flag set, by any agent, then takes over that
    buffer and that cursor, keeps its own capacity, and has the attributes
    that the parent's [load] restored. *)
Theorem saved_memory_is_restored
    (parent_save : string → Base → directory → Files.outcome directory)
    (parent_load : string → Base → directory → Files.outcome Base)
    name self other dir dir1 (b' : Base) :
  parent_save name (base self) dir = Files.Done dir1 →
  ∃ dir',
    save parent_save name true self dir = Files.Done dir' ∧
    dir' !! (name +:+ "-memory")
    = Some [PBuffer (buffer self); PInt (pos self)] ∧
    (∀ file, file ≠ name +:+ "-memory" → dir' !! file = dir1 !! file) ∧
    (parent_load name (base other) dir' = Files.Done b' →
     load parent_load name true other dir'
     = Files.Done {| replay_buffer_capacity := replay_buffer_capacity other;
                     replay_buffer_nsteps := replay_buffer_nsteps other;
                     buffer := buffer self;
                     pos := pos self;
                     base := b' |}).
Proof.
  intros Hsave. unfold save, Files.close_wb, Files.open_wb, write_memory,
    Files.dump.
  rewrite Hsave. cbn.
  eexists. split; [reflexivity|].
  split; [by rewrite lookup_insert_eq|].
  split; [intros file Hne; by rewrite lookup_insert_ne|].
  intros Hload. unfold load. rewrite Hload. cbn.
  unfold Files.open_rb. rewrite lookup_insert_eq. reflexivity.
Qed.

(** X6.  [load] with the flag set needs a saved memory: when the parent's
    [load] has succeeded, it raises [FileNotFoundError] if there is no file
    [name-memory], and [EOFError] if the file is empty or ends after the
    buffer.  Without the flag the file is not looked for and the buffer and
    the cursor stay as they are. *)
Theorem load_needs_saved_memory
    (parent_load : string → Base → directory → Files.outcome Base)
    name self dir (b' : Base) :
  parent_load name (base self) dir = Files.Done b' →
  (dir !! (name +:+ "-memory") = None →
   load parent_load name true self dir = Files.Failed Files.FileNotFoundError) ∧
  (∀ f, dir !! (name +:+ "-memory") = Some f →
        f = [] ∨ (∃ l, f = [PBuffer l]) →
        load parent_load name true self dir = Files.Failed Files.EOFError) ∧
  load parent_load name false self dir
  = Files.Done {| replay_buffer_capacity := replay_buffer_capacity self;
                  replay_buffer_nsteps := replay_buffer_nsteps self;
                  buffer := buffer self;
                  pos := pos self;
                  base := b' |}.
Proof.
  intros Hload. unfold load, Files.open_rb. rewrite Hload. cbn.
  split; [by intros ->|]. split; [|done].
  intros f -> [->|[l ->]]; done.
Qed.

End checkpoints.

Lemma memorize_keeps_entries_witness :
  ReplayBuffer.memorize 4 14 104 5 false true Examples.small_memory
  = Ok {| replay_buffer_capacity := 2; replay_buffer_nsteps := 1;
          buffer := [([3], 13, 103, [4], true); ([4], 14, 104, [5], false)];
          pos := 0; base := 0 |} ∧
  buffer {| replay_buffer_capacity := 2; replay_buffer_nsteps := 1;
            buffer := [([3], 13, 103, [4], true); ([4], 14, 104, [5], false)];
            pos := 0; base := 0 |} !! 0%nat
  = Some ([3], 13, 103, [4], true).
Proof.
  split; [reflexivity|].
  refine (proj2 (proj2 (proj2 (proj2 (proj2
    (memorize_keeps_entries 4 14 104 5 false true Examples.small_memory _
       eq_refl))))) 0%nat _ eq_refl _).
  right. intros Hslot. vm_compute in Hslot. discriminate Hslot.
Defined.

Lemma sampled_batch_is_memorized_witness :
  0 < 2 ∧ 1 ≤ 2 ≤ len Examples.small_memory ∧
  ∃ drawn : list (step_data Z Z Z bool * bool),
    sample 2 [1; 0]%nat Examples.small_memory
    = Ok (((λ x, sd_state x.1) <$> drawn, (λ x, sd_action x.1) <$> drawn,
           (λ x, sd_reward x.1) <$> drawn,
           (λ x, sd_next_state x.1) <$> drawn,
           (λ x, sd_done x.1) <$> drawn, [1%Q; 1%Q]), Examples.small_memory) ∧
    Forall (λ x, x ∈ drop 1 Examples.three_seen) drawn.
Proof.
  split; [lia|]. split; [by cbn|].
  destruct (sampled_batch_is_memorized 2 0 Examples.three_seen
              Examples.small_memory 2 [1; 0]%nat)
    as (drawn & Hsample & _ & Hdrawn).
  - lia.
  - reflexivity.
  - by cbn.
  - split; [reflexivity|]. split; [|by repeat constructor].
    apply NoDup_cons_2; [by intros ?%list_elem_of_singleton|].
    apply NoDup_singleton.
  - exists drawn. split; [exact Hsample | exact Hdrawn].
Defined.

Lemma memory_stays_within_capacity_witness :
  0 < 2 ∧
  ∃ self : ReplayBuffer.agent Z Z Z bool Z,
    memorize_all Examples.three_seen (ReplayBuffer.init 2 0) = Ok self ∧
    len self = 2 ∧ pos self = 1.
Proof.
  split; [lia|].
  destruct (memory_stays_within_capacity 2 0 Examples.three_seen ltac:(lia))
    as (self & Hrun & _ & _ & Hlen & _ & Hpos & _).
  exists self. split; [exact Hrun|]. split; [exact Hlen | exact Hpos].
Defined.

Lemma saved_memory_is_restored_witness :
  ∃ dir',
    save Examples.no_save "ckpt" true Examples.small_memory ∅
    = Files.Done dir' ∧
    load Examples.no_load "ckpt" true (ReplayBuffer.init 5 9) dir'
    = Files.Done {| replay_buffer_capacity := 5; replay_buffer_nsteps := 1;
                    buffer := buffer Examples.small_memory;
                    pos := 1; base := 9 |}.
Proof.
  destruct (saved_memory_is_restored Examples.no_save Examples.no_load
              "ckpt" Examples.small_memory (ReplayBuffer.init 5 9) ∅ ∅ 9
              eq_refl)
    as (dir' & Hsave & _ & _ & Hload).
  exists dir'. split; [exact Hsave|]. exact (Hload eq_refl).
Defined.

Lemma load_needs_saved_memory_witness :
  load Examples.no_load "ckpt" true Examples.small_memory ∅
  = Files.Failed Files.FileNotFoundError.
Proof.
  exact (proj1 (load_needs_saved_memory Examples.no_load "ckpt"
                  Examples.small_memory ∅ 0 eq_refl) eq_refl).
Defined.

End MemoryFacts.

(** ** More on the target network: every cadence, and the estimates *)

Module CadenceFacts.
Import PyFacts TargetDQN TargetDQNFacts.

Section facts.
Context {Obs Act Rew Dn Params Rest Batch Out Values : Type}.
Context `{!QHead Params Batch Out Values}.

Local Abbreviation parent := (TargetDQN.parent Params Rest).
Local Abbreviation agent := (TargetDQN.agent Params Rest).

Implicit Types (self : agent) (x : step_data Obs Act Rew Dn).
Implicit Types
  (parent_see : Obs → Act → Rew → Obs → Dn → parent → parent).

(** One call of [see] with any cadence but 0: it returns what the parent
    left, synced or not. *)
Lemma see_returns parent_see x self :
  counts_frames parent_see → target_update (base self) ≠ 0 →
  let after_parent :=
    with_base (parent_see (sd_state x) (sd_action x) (sd_reward x)
                 (sd_next_state x) (sd_done x)) self in
  let m := (frames_done (base self) + num_envs (base self))
             `mod` target_update (base self) in
  num_envs (base after_parent) = num_envs (base self) ∧
  target_update (base after_parent) = target_update (base self) ∧
  see parent_see (sd_state x) (sd_action x) (sd_reward x)
    (sd_next_state x) (sd_done x) self
  = Ok (if decide (m < num_envs (base self)) then unfreeze after_parent
        else after_parent).
Proof.
  intros Hp Htu. cbn zeta.
  destruct (Hp (sd_state x) (sd_action x) (sd_reward x) (sd_next_state x)
              (sd_done x) (base self)) as (Hf & Hn & Htu').
  do 2 (split; [done|]).
  unfold see, mod_. cbn [base with_base]. rewrite Hf, Hn, Htu'.
  rewrite decide_False by done. rewrite bind_Ok. cbn beta.
  by case_decide.
Qed.

(** X7.  When [num_envs] is at least [target_update] (or [target_update] is
    negative), every call of [see] syncs: after any run of at least one
    call the target parameters are the online parameters, and [unfreeze]
    has run once per call. *)
Theorem sync_at_every_call parent_see
    (xs : list (step_data Obs Act Rew Dn)) self :
  counts_frames parent_see →
  0 < num_envs (base self) →
  target_update (base self) < 0 ∨
  0 < target_update (base self) ≤ num_envs (base self) →
  xs ≠ [] →
  ∃ self',
    see_all parent_see xs self = Ok self' ∧
    target_net self' = q_net (base self') ∧
    unfreeze_calls self' = (unfreeze_calls self + length xs)%nat.
Proof.
  intros Hp. revert self.
  induction xs as [|x xs IH]; intros self Hn Htu Hne; [done|].
  destruct (see_returns parent_see x self Hp ltac:(lia))
    as (Hn' & Htu' & Hsee).
  cbn zeta in Hsee. rewrite decide_True in Hsee.
  2:{ destruct Htu as [Hneg|Hpos].
      - pose proof (Z.mod_neg_bound
          (frames_done (base self) + num_envs (base self))
          (target_update (base self)) Hneg). lia.
      - pose proof (Z.mod_pos_bound
          (frames_done (base self) + num_envs (base self))
          (target_update (base self)) ltac:(lia)). lia. }
  set (next := unfreeze _) in Hsee.
  unfold see_all. cbn [for_each]. rewrite Hsee, bind_Ok.
  destruct xs as [|x' xs].
  - exists next. cbn. split; [done|]. split; [done|]. lia.
  - destruct (IH next) as (self' & Hrun & Htarget & Hcalls);
      [subst next; cbn [base unfreeze]; lia
      | subst next; cbn [base unfreeze]; rewrite Hn', Htu'; lia
      | done |].
    exists self'. split; [exact Hrun|]. split; [done|].
    rewrite Hcalls. subst next. cbn. lia.
Qed.

(** X8.  The degenerate cadences.  With [target_update = 0] a call of [see]
    raises [ZeroDivisionError], after the parent's [see] has run.  With a
    positive [target_update] and no environment ([num_envs <= 0]) no call
    ever syncs: a run leaves the target parameters and the count of
    [unfreeze] as they were. *)
Theorem degenerate_cadence parent_see
    (xs : list (step_data Obs Act Rew Dn)) x self :
  counts_frames parent_see →
  (target_update (base self) = 0 →
   see parent_see (sd_state x) (sd_action x) (sd_reward x)
     (sd_next_state x) (sd_done x) self = Raise ZeroDivisionError) ∧
  (0 < target_update (base self) → num_envs (base self) ≤ 0 →
   ∃ self',
     see_all parent_see xs self = Ok self' ∧
     target_net self' = target_net self ∧
     unfreeze_calls self' = unfreeze_calls self).
Proof.
  intros Hp. split.
  - intros Hz.
    destruct (Hp (sd_state x) (sd_action x) (sd_reward x) (sd_next_state x)
                (sd_done x) (base self)) as (_ & _ & Htu').
    unfold see, mod_. cbn [base with_base]. rewrite Htu', Hz. done.
  - revert self. induction xs as [|x' xs IH]; intros self Htu Hn.
    + by exists self.
    + destruct (see_returns parent_see x' self Hp ltac:(lia))
        as (Hn' & Htu' & Hsee).
      cbn zeta in Hsee. rewrite decide_False in Hsee.
      2:{ pose proof (Z.mod_pos_bound
            (frames_done (base self) + num_envs (base self))
            (target_update (base self)) Htu). lia. }
      set (next := with_base _ self) in *.
      destruct (IH next) as (self' & Hrun & Htarget & Hcalls);
        [lia | lia |].
      exists self'. unfold see_all. cbn [for_each]. rewrite Hsee, bind_Ok.
      by split.
Qed.

(** X9.  The bootstrap estimates follow the target parameters only.  With
    any cadence but 0, a run of [see] succeeds and never lowers the count
    of [unfreeze]; if the count is unchanged, [estimate_next_state] gives
    on every batch what it gave before the run, whatever the parent did to
    the online network.  A call that syncs leaves estimates equal to those
    of the online network. *)
Theorem estimates_fixed_between_syncs parent_see
    (xs : list (step_data Obs Act Rew Dn)) x self :
  counts_frames parent_see → target_update (base self) ≠ 0 →
  (∃ self',
     see_all parent_see xs self = Ok self' ∧
     (unfreeze_calls self ≤ unfreeze_calls self')%nat ∧
     (unfreeze_calls self' = unfreeze_calls self →
      ∀ batch : Batch,
        estimate_next_state batch self' = estimate_next_state batch self)) ∧
  (∃ after,
     see parent_see (sd_state x) (sd_action x) (sd_reward x)
       (sd_next_state x) (sd_done x) self = Ok after ∧
     (unfreeze_calls after ≠ unfreeze_calls self →
      ∀ batch : Batch,
        estimate_next_state batch after = online_estimate batch after)).
Proof.
  intros Hp Htu. split.
  - revert self Htu. induction xs as [|x' xs IH]; intros self Htu.
    + exists self. by split; [|split].
    + destruct (see_returns parent_see x' self Hp Htu) as (Hn' & Htu' & Hsee).
      cbn zeta in Hsee.
      set (mid := with_base _ self) in *.
      assert (∃ next,
        see parent_see (sd_state x') (sd_action x') (sd_reward x')
          (sd_next_state x') (sd_done x') self = Ok next ∧
        target_update (base next) = target_update (base self) ∧
        (unfreeze_calls self ≤ unfreeze_calls next)%nat ∧
        (unfreeze_calls next = unfreeze_calls self →
         target_net next = target_net self))
        as (next & Hnext & Htun & Hle & Hsame).
      { case_decide.
        - exists (unfreeze mid). split; [done|]. split; [done|].
          split; [cbn; lia|]. cbn. lia.
        - exists mid. by split; [|split; [|split]]. }
      destruct (IH next ltac:(by rewrite Htun))
        as (self' & Hrun & Hle' & Hsame').
      exists self'. unfold see_all. cbn [for_each]. rewrite Hnext, bind_Ok.
      split; [exact Hrun|]. split; [lia|].
      intros Heq batch. rewrite Hsame' by lia.
      unfold estimate_next_state. by rewrite Hsame by lia.
  - destruct (see_returns parent_see x self Hp Htu) as (_ & _ & Hsee).
    cbn zeta in Hsee. eexists. split; [exact Hsee|].
    case_decide; [done|]. intros Hne. by contradict Hne.
Qed.

End facts.

Lemma sync_at_every_call_witness :
  counts_frames Examples.training_see ∧
  0 < 5 ∧ 0 < 2 ≤ 5 ∧
  ∃ self',
    see_all Examples.training_see Examples.four_steps
      (Examples.target_agent 5 2) = Ok self' ∧
    target_net self' = q_net (base self') ∧
    unfreeze_calls self' = 5%nat.
Proof.
  assert (Hp : counts_frames Examples.training_see) by (by intros ? ? ? ? ? []).
  split; [exact Hp|]. split; [lia|]. split; [lia|].
  destruct (sync_at_every_call Examples.training_see Examples.four_steps
              (Examples.target_agent 5 2) Hp ltac:(cbn; lia)
              ltac:(right; cbn; lia) ltac:(discriminate))
    as (self' & Hrun & Htarget & Hcalls).
  exists self'. split; [exact Hrun|]. split; [exact Htarget | exact Hcalls].
Defined.

Lemma degenerate_cadence_witness :
  counts_frames Examples.training_see ∧
  see Examples.training_see 1 0 0 2 false (Examples.target_agent 1 0)
  = Raise ZeroDivisionError.
Proof.
  assert (Hp : counts_frames Examples.training_see) by (by intros ? ? ? ? ? []).
  split; [exact Hp|].
  exact (proj1 (degenerate_cadence Examples.training_see []
                  (StepData 1 0 0 2 false) (Examples.target_agent 1 0) Hp)
           eq_refl).
Defined.

Lemma estimates_fixed_between_syncs_witness :
  counts_frames Examples.training_see ∧
  ∃ self',
    see_all Examples.training_see (take 1 Examples.four_steps)
      (Examples.target_agent 2 4) = Ok self' ∧
    (unfreeze_calls self' = unfreeze_calls (Examples.target_agent 2 4) →
     ∀ batch : Z,
       estimate_next_state (QHead0 := Examples.scaling_head) batch self'
       = estimate_next_state (QHead0 := Examples.scaling_head) batch
           (Examples.target_agent 2 4)).
Proof.
  assert (Hp : counts_frames Examples.training_see) by (by intros ? ? ? ? ? []).
  split; [exact Hp|].
  destruct (proj1 (estimates_fixed_between_syncs
                     (QHead0 := Examples.scaling_head)
                     Examples.training_see (take 1 Examples.four_steps)
                     (StepData 1 0 0 2 false) (Examples.target_agent 2 4)
                     Hp ltac:(by cbn)))
    as (self' & Hrun & _ & Hsame).
  exists self'. split; [exact Hrun | exact Hsame].
Defined.

End CadenceFacts.

(** ** More on A2C: any run of [see], what the rollout memory holds,
    degenerate configurations, the parts of [update] *)

Module RolloutFacts.
Import PyFacts A2C ReturnsFacts UpdateFacts.

Section facts.
Context {S Obs Act Policy Dist Rest : Type}.
Context `{!TensorOps S, !Network S Obs Act Policy Dist}.

Local Abbreviation parent := (A2C.parent S Rest).
Local Abbreviation agent := (A2C.agent S Obs Act Policy Rest).
Local Abbreviation seen :=
  (step_data (list Obs) (list Act) (list S) (list bool)).

Implicit Types (self : agent) (b : parent) (x : seen) (xs : list seen).
Implicit Types
  (parent_see : list Obs → list Act → list S → list Obs → list bool →
                parent → parent).







Lemma follows_unique self self' (T : nat) (rets rets' : list (list S)) :
  rewards self' = rewards self → dones self' = dones self →
  gamma (config self') = gamma (config self) →
  length rets = Datatypes.S T → length rets' = Datatypes.S T →
  rets !! T = rets' !! T →
  (∀ t, (t < T)%nat → follows self rets t) →
  (∀ t, (t < T)%nat → follows self' rets' t) →
  rets = rets'.
Proof.
  intros Hr Hd Hg Hlen Hlen' Hlast Hfol Hfol'.
  assert (Hdown : ∀ k, (k ≤ T)%nat → rets !! (T - k)%nat = rets' !! (T - k)%nat).
  { induction k as [|k IH]; intros Hk.
    - by replace (T - 0)%nat with T by lia.
    - destruct (Hfol (T - Datatypes.S k)%nat ltac:(lia))
        as (nxt & d & r & Hnxt & Hdn & Hrw & ->).
      destruct (Hfol' (T - Datatypes.S k)%nat ltac:(lia))
        as (nxt' & d' & r' & Hnxt' & Hdn' & Hrw' & ->).
      replace (Datatypes.S (T - Datatypes.S k)) with (T - k)%nat in * by lia.
      rewrite Hr in Hrw'. rewrite Hd in Hdn'. rewrite Hg.
      rewrite IH in Hnxt by lia.
      repeat f_equal; congruence. }
  apply list_eq. intros j.
  destruct (decide (j ≤ T)%nat) as [Hj|Hj].
  - replace j with (T - (T - j))%nat by lia. apply Hdown. lia.
  - by rewrite !lookup_ge_None_2 by lia.
Qed.

(** X13.  [compute_returns] overwrites every slot: the returns that it
    leaves depend on the value estimates, the rewards, the done flags and
    the discount only, not on what [returns] held before; in particular a
    second call with the same value estimates changes nothing. *)
Theorem compute_returns_forgets_old_returns values self self' (T : nat) :
  rewards self' = rewards self → dones self' = dones self →
  gamma (config self') = gamma (config self) →
  length (rewards self) = T →
  length (dones self) = Datatypes.S T →
  length (returns self) = Datatypes.S T →
  length (returns self') = Datatypes.S T →
  length values = Datatypes.S T →
  ∃ rets,
    compute_returns values self = Ok (with_returns rets self) ∧
    compute_returns values self' = Ok (with_returns rets self') ∧
    compute_returns values (with_returns rets self)
    = Ok (with_returns rets self).
Proof.
  intros Hr Hd Hg HT Hdl Hl Hl' Hv.
  destruct (compute_returns_slots values self T HT Hdl Hl Hv)
    as (rets & Hrun & Hlen & Hlast & Hfol).
  destruct (compute_returns_slots values self' T)
    as (rets' & Hrun' & Hlen' & Hlast' & Hfol');
    [congruence | congruence | done | done |].
  destruct (compute_returns_slots values (with_returns rets self) T)
    as (rets2 & Hrun2 & Hlen2 & Hlast2 & Hfol2); [done..|].
  assert (rets' = rets) as ->.
  { symmetry. apply (follows_unique self self' T); try done. congruence. }
  assert (rets2 = rets) as ->.
  { symmetry. apply (follows_unique self (with_returns rets self) T);
      try done. congruence. }
  exists rets. by split; [|split].
Qed.

(** X14.  The entropy term that [update] computes is the mean of the
    entropies of all the samples of the batch but the last one.  With a
    single environment these are the samples of the first [rollout] time
    slots. *)
Theorem entropy_term_of_update self (N : nat) :
  one_output_per_sample →
  (∀ (p : Policy) (obs : list Obs),
     length (entropy (forward p obs).1) = length obs) →
  0 < rollout (config self) → well_shaped N self →
  let R := Z.to_nat (rollout (config self)) in
  ∃ self1 l,
    update_losses self = Ok (self1, l) ∧
    dist_entropy l
    = mean (take ((R + 1) * N - 1) (sample_entropies self)) ∧
    (N = 1%nat → dist_entropy l = spec_entropy R 1 (sample_entropies self)).
Proof.
  intros Hnet Hent Hroll Hshape. cbn zeta.
  destruct (entropy_term_spec self N Hnet Hroll Hshape)
    as (self1 & l & Hlosses & Hmean).
  exists self1, l. split; [done|].
  assert (Hlen : length (sample_entropies self)
                 = ((Z.to_nat (rollout (config self)) + 1) * N)%nat).
  { unfold sample_entropies. rewrite Hent.
    destruct Hshape as (Hobs & _).
    rewrite (shaped_concat_length _ N _ Hobs). lia. }
  rewrite Hlen in Hmean. split; [done|].
  intros ->. rewrite Hmean. unfold spec_entropy. do 2 f_equal. lia.
Qed.

(** X15.  [update] refuses a batch of the wrong size: when the network
    does not give one value per stored observation, the view of the values
    by time slot raises [RuntimeError], and nothing is optimized or
    logged. *)
Theorem update_refuses_wrong_batch self (N : nat) :
  0 < rollout (config self) → well_shaped N self →
  length (forward (train (policy self)) (concat (observations self))).2
  ≠ ((length (rewards self) + 1) * N)%nat →
  update self = Raise RuntimeError.
Proof.
  intros Hroll (_ & Hrew & _) Hwrong.
  unfold update, update_losses.
  rewrite (size_shaped (Z.to_nat (rollout (config self))) N) by (done || lia).
  cbn [fst snd]. destruct Hrew as [Hrl _]. rewrite Hrl in Hwrong.
  unfold view.
  destruct (decide (length (forward _ _).2 = _)) as [Heq|_]; [done|].
  reflexivity.
Qed.

(** X16.  What [update] leaves alone: the observations, rewards, actions
    and done flags, the step, the configuration, the frame counter, and
    every channel of the logger but the three loss channels.  It changes
    the returns, the policy and these three channels, and counts one more
    call. *)
Theorem update_leaves_rollout_memory self (N : nat) :
  one_output_per_sample → 0 < rollout (config self) → well_shaped N self →
  ∃ self',
    update self = Ok self' ∧
    observations self' = observations self ∧
    rewards self' = rewards self ∧ actions self' = actions self ∧
    dones self' = dones self ∧ step self' = step self ∧
    config self' = config self ∧
    frames_done (base self') = frames_done (base self) ∧
    num_envs (base self') = num_envs (base self) ∧
    rest (base self') = rest (base self) ∧
    length (returns self') = length (returns self) ∧
    update_calls self' = Datatypes.S (update_calls self) ∧
    (∀ channel, channel ∉ loss_channels →
       logger (base self') !!! channel = logger (base self) !!! channel).
Proof.
  intros Hnet Hroll Hshape.
  destruct (update_spec self N Hnet Hroll Hshape) as (rets & _ & Hlen & Hupd).
  cbn zeta in Hupd. eexists. split; [exact Hupd|]. cbn.
  do 9 (split; [done|]).
  split.
  { destruct Hshape as (_ & [Hrl _] & _ & _ & Hret). by rewrite Hlen, Hrl. }
  split; [done|].
  intros channel Hch. unfold loss_channels in Hch.
  rewrite !lookup_total_insert_ne; [done|..];
    intros <-; apply Hch; repeat constructor.
Qed.




End facts.

Local Abbreviation toy := Examples.toy_network.
Local Abbreviation exact := Examples.exact_ops.
Local Abbreviation two_step_agent := (Examples.a2c_agent 2 1 (Examples.q 1 1)).

Lemma a2c_agent_shaped (R N : nat) w :
  well_shaped N (Examples.a2c_agent R N w).
Proof.
  unfold well_shaped, shaped. cbn. rewrite Nat2Z.id, !length_replicate.
  repeat split; try lia;
    apply Forall_replicate; by rewrite length_replicate.
Qed.

Lemma two_envs_shaped : well_shaped 2 Examples.two_envs.
Proof. repeat split; repeat constructor. Qed.





(** The hand computation again, started from two different contents of
    [returns]. *)
Lemma compute_returns_forgets_old_returns_witness :
  length (rewards (Examples.hand_rollout Examples.no_done)) = 3%nat ∧
  ∃ rets,
    compute_returns (TensorOps0 := exact)
      (Examples.hand_values (Examples.q 5 1))
      (Examples.hand_rollout Examples.no_done)
    = Ok (with_returns rets (Examples.hand_rollout Examples.no_done)) ∧
    compute_returns (TensorOps0 := exact)
      (Examples.hand_values (Examples.q 5 1))
      (with_returns (Examples.hand_values (Examples.q 7 1))
         (Examples.hand_rollout Examples.no_done))
    = Ok (with_returns rets
            (with_returns (Examples.hand_values (Examples.q 7 1))
               (Examples.hand_rollout Examples.no_done))).
Proof.
  split; [reflexivity|].
  destruct (compute_returns_forgets_old_returns (TensorOps0 := exact)
              (Examples.hand_values (Examples.q 5 1))
              (Examples.hand_rollout Examples.no_done)
              (with_returns (Examples.hand_values (Examples.q 7 1))
                 (Examples.hand_rollout Examples.no_done))
              3 eq_refl eq_refl eq_refl eq_refl eq_refl eq_refl eq_refl
              eq_refl)
    as (rets & Hrun & Hrun' & _).
  exists rets. split; [exact Hrun | exact Hrun'].
Defined.

(** With one environment the entropy term is the mean over the first
    [rollout] time slots. *)
Lemma entropy_term_of_update_witness :
  0 < rollout (config two_step_agent) ∧
  ∃ self1 l,
    update_losses (TensorOps0 := exact) (Network0 := toy) two_step_agent
    = Ok (self1, l) ∧
    dist_entropy l
    = spec_entropy (TensorOps0 := exact) 2 1
        (sample_entropies (Network0 := toy) two_step_agent).
Proof.
  split; [by cbn|].
  destruct (entropy_term_of_update (TensorOps0 := exact) (Network0 := toy)
              two_step_agent 1 toy_network_per_sample
              (λ p obs, length_fmap _ _)
              ltac:(by cbn) (a2c_agent_shaped 2 1 _))
    as (self1 & l & Hrun & _ & Hone).
  exists self1, l. split; [exact Hrun | exact (Hone eq_refl)].
Defined.

(** A head that gives one value for a batch of four observations. *)
Lemma update_refuses_wrong_batch_witness :
  0 < rollout (config Examples.two_envs) ∧
  update (TensorOps0 := exact) (Network0 := Examples.pooling_network)
    Examples.two_envs = Raise RuntimeError.
Proof.
  split; [by cbn|].
  apply (update_refuses_wrong_batch (TensorOps0 := exact)
           (Network0 := Examples.pooling_network) Examples.two_envs 2).
  - by cbn.
  - exact two_envs_shaped.
  - cbn. lia.
Defined.

Lemma update_leaves_rollout_memory_witness :
  0 < rollout (config Examples.two_envs) ∧
  ∃ self',
    update (TensorOps0 := exact) (Network0 := toy) Examples.two_envs
    = Ok self' ∧
    observations self' = [[1; 2]; [3; 4]] ∧
    update_calls self' = 1%nat ∧
    logger (base self') !!! "magnitude" = [].
Proof.
  split; [by cbn|].
  destruct (update_leaves_rollout_memory (TensorOps0 := exact)
              (Network0 := toy) Examples.two_envs 2 toy_network_per_sample
              ltac:(by cbn) two_envs_shaped)
    as (self' & Hrun & Hobs & _ & _ & _ & _ & _ & _ & _ & _ & _ & Hcalls
        & Hlog).
  exists self'. split; [exact Hrun|]. split; [exact Hobs|].
  split; [exact Hcalls|].
  rewrite (Hlog "magnitude"); [reflexivity|].
  unfold loss_channels. rewrite !not_elem_of_cons.
  repeat split; [discriminate..|apply not_elem_of_nil].
Defined.



End RolloutFacts.
